(** * TranslateMode: the translation pipeline of [translate.py]

    A shallow embedding of the HTML text-leaf codec ([is_html],
    [extract_text_nodes], [rebuild_html_from_nodes]), of the translation
    client ([TranslatorAPI_MIC]) and of the resumable batch updater
    ([detect_primary_key], [add_target_column_if_needed],
    [translate_and_update]), followed by the properties proved about them.

    External collaborators are parameters of the model: the HTML parser of
    BeautifulSoup, the HTTP endpoint reached through [requests.post] and the
    database behind the DB-API connection.  Everything the program does to
    them is recorded as a list of events, in program order. *)

From stdpp Require Import base option list strings pretty gmap.
From Stdlib Require Import Ascii ZArith Lia.

Local Open Scope Z_scope.

(* ================================================================== *)
(** * Part I: the program                                              *)
(* ================================================================== *)

(** ** Python strings

    A [string] is a sequence of characters with code points below 256. *)
Module Py.

(** [str.isspace] on one character: the code points 9-13, 28-32, 133, 160. *)
Definition isspace (c : ascii) : bool :=
  let n := Ascii.nat_of_ascii c in
  ((9 <=? n) && (n <=? 13) || (28 <=? n) && (n <=? 32)
   || (n =? 133) || (n =? 160))%nat.

(** [s.lstrip(chars)], [s.rstrip(chars)], with the set [chars] as a test. *)
Fixpoint lstrip_of (p : ascii → bool) (s : string) : string :=
  match s with
  | EmptyString => EmptyString
  | String c s' => if p c then lstrip_of p s' else s
  end.

Definition rstrip_of (p : ascii → bool) (s : string) : string :=
  String.rev (lstrip_of p (String.rev s)).

(** [s.strip()] *)
Definition strip (s : string) : string :=
  rstrip_of isspace (lstrip_of isspace s).

(** [c in s] for a one-character string [c]. *)
Fixpoint contains (c : ascii) (s : string) : bool :=
  match s with
  | EmptyString => false
  | String c' s' => if decide (c = c') then true else contains c s'
  end.

(** Truth value of a string: [bool(s)]. *)
Definition truthy (s : string) : bool :=
  match s with EmptyString => false | String _ _ => true end.

(** Truth value of [x] when [x] is a string or [None]. *)
Definition truthy_opt (x : option string) : bool :=
  match x with None => false | Some s => truthy s end.

End Py.

(** ** The parse tree of BeautifulSoup *)

(** The classes of string nodes: [NavigableString] itself and its subclasses
    for comments, CDATA sections, processing instructions, declarations,
    the doctype, and the strings inside [script], [style] and [template]
    elements.  [isinstance(child, NavigableString)] holds for all. *)
Inductive string_class :=
| PlainString | Comment | CData | ProcessingInstruction | Declaration | Doctype
| Script | Stylesheet | TemplateString.

Global Instance string_class_eq_dec : EqDecision string_class.
Proof. solve_decision. Defined.

(** An attribute value is a string, or a list of strings for a multi-valued
    attribute such as [class]. *)
Inductive attr_value :=
| AttrStr (s : string)
| AttrList (l : list string).

Local Unset Elimination Schemes.

Inductive node :=
| NavigableString (cls : string_class) (s : string)
| Tag (name : string) (attrs : list (string * attr_value)) (contents : list node).

Local Set Elimination Schemes.

(** Induction on a tree, with the property for every child of a tag. *)
Section NodeInduction.
Variable P : node → Prop.
Hypothesis P_string : ∀ cls s, P (NavigableString cls s).
Hypothesis P_tag : ∀ name attrs contents,
  Forall P contents → P (Tag name attrs contents).

Fixpoint node_ind (el : node) : P el :=
  match el with
  | NavigableString cls s => P_string cls s
  | Tag name attrs contents =>
      P_tag name attrs contents
        ((fix each (cs : list node) : Forall P cs :=
            match cs with
            | [] => List.Forall_nil P
            | c :: cs' => List.Forall_cons P c cs' (node_ind c) (each cs')
            end) contents)
  end.
End NodeInduction.

(** The [BeautifulSoup] object is a [Tag] named [[document]]. *)
Definition BeautifulSoup (contents : list node) : node :=
  Tag "[document]" [] contents.

Definition is_tag (n : node) : bool :=
  match n with Tag _ _ _ => true | NavigableString _ _ => false end.

(** [el.descendants]: every node below [el], in document order. *)
Fixpoint descendants (el : node) : list node :=
  match el with
  | NavigableString _ _ => []
  | Tag _ _ contents =>
      (fix each (cs : list node) : list node :=
         match cs with
         | [] => []
         | child :: rest => child :: descendants child ++ each rest
         end) contents
  end.

(** [el.find()]: the first tag below [el], or [None]. *)
Definition find (el : node) : option node :=
  head (List.filter is_tag (descendants el)).

(** The dictionaries appended to [nodes] by [extract_text_nodes]. *)
Record text_node := {
  text : string;
  parent_tag : string;
  node_attrs : list (string * attr_value);
  path : string;
}.

Section Codec.

(** [BeautifulSoup(html, "html.parser")]: the top-level nodes of the
    document, or [None] when the parser raises. *)
Variable parser : string → option (list node).

(** [is_html(text)]; [text] may be [None]. *)
Definition is_html (text : option string) : bool :=
  match text with
  | None => false
  | Some text =>
      if negb (Py.truthy text) then false
      else if Py.contains "<"%char text && Py.contains ">"%char text then
        match parser text with
        | Some contents =>
            match find (BeautifulSoup contents) with
            | Some _ => true        (* [bool] of a tag is [True] *)
            | None => false
            end
        | None => false
        end
      else false
  end.

(** The inner function [recurse] of [extract_text_nodes]; the list it
    returns is what the call appends to [nodes]. *)
Fixpoint recurse (el : node) (path : string) : list text_node :=
  match el with
  | NavigableString _ _ => []
  | Tag name attrs contents =>
      (fix each (idx : nat) (cs : list node) : list text_node :=
         match cs with
         | [] => []
         | child :: rest =>
             let child_path :=
               if Py.truthy name
               then path +:+ "/" +:+ name +:+ "[" +:+ pretty idx +:+ "]"
               else path in
             match child with
             | NavigableString _ s =>
                 let text := Py.strip s in
                 if Py.truthy text then
                   [ {| text := text;
                        parent_tag := if Py.truthy name then name else "";
                        node_attrs := if Py.truthy name then attrs else [];
                        path := child_path |} ]
                 else []
             | Tag _ _ _ => recurse child child_path
             end ++ each (S idx) rest
         end) 0%nat contents
  end.

Definition extract_text_nodes_soup (soup : node) : list text_node :=
  recurse soup "".

(** The inner function [recurse_replace] of [rebuild_html_from_nodes];
    the counter [idx] is threaded through, the tree is returned as the
    call leaves it. *)
Fixpoint recurse_replace (translated_texts : list string)
    (el : node) (idx : nat) : node * nat :=
  match el with
  | NavigableString _ _ => (el, idx)
  | Tag name attrs contents =>
      let '(contents', idx') :=
        (fix each (cs : list node) (idx : nat) : list node * nat :=
           match cs with
           | [] => ([], idx)
           | child :: rest =>
               let '(child', idx1) :=
                 match child with
                 | NavigableString _ s =>
                     if Py.truthy (Py.strip s)
                        && (idx <? length translated_texts)%nat
                     then (NavigableString PlainString
                             (nth idx translated_texts ""), S idx)
                     else (child, idx)
                 | Tag _ _ _ => recurse_replace translated_texts child idx
                 end in
               let '(rest', idx2) := each rest idx1 in
               (child' :: rest', idx2)
           end) contents idx in
      (Tag name attrs contents', idx')
  end.

Definition rebuild_soup (soup : node) (translated_texts : list string) : node :=
  fst (recurse_replace translated_texts soup 0%nat).

(** [str(soup)] *)
Variable to_str : node → string.

(** The two functions of the source, on HTML text.  A parser that raises
    makes both raise ([None]). *)
Definition extract_text_nodes (html : string) : option (list text_node) :=
  contents ← parser html;
  Some (extract_text_nodes_soup (BeautifulSoup contents)).

Definition rebuild_html_from_nodes (html : string)
    (translated_texts : list string) : option string :=
  contents ← parser html;
  Some (to_str (rebuild_soup (BeautifulSoup contents) translated_texts)).

End Codec.

(** The loops of [recurse] and [recurse_replace] over [el.contents], as
    functions of their own: the same loop bodies, started at any index. *)
Fixpoint recurse_each (name : string) (attrs : list (string * attr_value))
    (path : string) (idx : nat) (cs : list node) : list text_node :=
  match cs with
  | [] => []
  | child :: rest =>
      let child_path :=
        if Py.truthy name
        then path +:+ "/" +:+ name +:+ "[" +:+ pretty idx +:+ "]"
        else path in
      match child with
      | NavigableString _ s =>
          let text := Py.strip s in
          if Py.truthy text then
            [ {| text := text;
                 parent_tag := if Py.truthy name then name else "";
                 node_attrs := if Py.truthy name then attrs else [];
                 path := child_path |} ]
          else []
      | Tag _ _ _ => recurse child child_path
      end ++ recurse_each name attrs path (S idx) rest
  end.

Fixpoint recurse_replace_each (translated_texts : list string)
    (cs : list node) (idx : nat) : list node * nat :=
  match cs with
  | [] => ([], idx)
  | child :: rest =>
      let '(child', idx1) :=
        match child with
        | NavigableString _ s =>
            if Py.truthy (Py.strip s) && (idx <? length translated_texts)%nat
            then (NavigableString PlainString (nth idx translated_texts ""), S idx)
            else (child, idx)
        | Tag _ _ _ => recurse_replace translated_texts child idx
        end in
      let '(rest', idx2) := recurse_replace_each translated_texts rest idx1 in
      (child' :: rest', idx2)
  end.

(** ** Vocabulary for the properties of the codec *)

(** A string node is extractable, a text leaf, when it is non-empty after
    trimming. *)
Definition extractable (x : string_class * string) : bool :=
  Py.truthy (Py.strip x.2).

(** Every string node of a tree, in document order. *)
Fixpoint strings (el : node) : list (string_class * string) :=
  match el with
  | NavigableString cls s => [(cls, s)]
  | Tag _ _ contents => mjoin (strings <$> contents)
  end.

(** The markup of a tree: elements, attributes and the places of the
    strings, with the strings themselves blanked. *)
Fixpoint skeleton (el : node) : node :=
  match el with
  | NavigableString _ _ => NavigableString PlainString ""
  | Tag name attrs contents => Tag name attrs (skeleton <$> contents)
  end.

(** The values of the text leaves of a tree, in document order. *)
Definition leaf_values (el : node) : list string :=
  (λ x, Py.strip x.2) <$> List.filter extractable (strings el).

(** The number of text leaves before position [j] of a list of strings. *)
Definition leaf_rank (l : list (string_class * string)) (j : nat) : nat :=
  length (List.filter extractable (take j l)).

(** The tree with every text leaf replaced by a plain string holding its
    trimmed text. *)
Fixpoint trim_leaves (el : node) : node :=
  match el with
  | NavigableString cls s =>
      if extractable (cls, s) then NavigableString PlainString (Py.strip s)
      else el
  | Tag name attrs contents => Tag name attrs (trim_leaves <$> contents)
  end.

(** A text leaf is trimmed when it is a plain string without surrounding
    white space. *)
Definition trimmed (x : string_class * string) : bool :=
  bool_decide (x.1 = PlainString) && bool_decide (Py.strip x.2 = x.2).

Definition leaves_trimmed (el : node) : bool :=
  forallb (λ x, implb (extractable x) (trimmed x)) (strings el).

(** The sequential substitution of [recurse_replace], on the list of the
    strings of a tree. *)
Fixpoint fill (translated_texts : list string) (idx : nat)
    (l : list (string_class * string)) : list (string_class * string) * nat :=
  match l with
  | [] => ([], idx)
  | x :: l' =>
      if extractable x && (idx <? length translated_texts)%nat
      then let '(r, i) := fill translated_texts (S idx) l' in
           ((PlainString, nth idx translated_texts "") :: r, i)
      else let '(r, i) := fill translated_texts idx l' in (x :: r, i)
  end.

(** What [recurse_replace] does to a tree, told on the list of its strings:
    the strings are substituted sequentially and the markup is kept. *)
Definition replace_spec (V : list string) (c : node) : Prop :=
  ∀ idx, is_tag c = true →
    strings (recurse_replace V c idx).1 = (fill V idx (strings c)).1
    ∧ (recurse_replace V c idx).2 = (fill V idx (strings c)).2
    ∧ skeleton (recurse_replace V c idx).1 = skeleton c.

(** Echoing the extracted values back trims every text leaf in place. *)
Definition echo_spec (c : node) : Prop :=
  is_tag c = true → ∀ pre suf,
    recurse_replace (pre ++ leaf_values c ++ suf) c (length pre)
    = (trim_leaves c, (length pre + length (leaf_values c))%nat).

(** The text parses into at least one element. *)
Definition has_element (contents : list node) : bool :=
  existsb is_tag (descendants (BeautifulSoup contents)).

Definition parses_to_element (parser : string → option (list node))
    (text : string) : bool :=
  match parser text with
  | Some contents => has_element contents
  | None => false
  end.

(** A parser that knows three documents and reads every other text as one
    plain string; it is the parser of the examples. *)
Definition parser_stub (html : string) : option (list node) :=
  if bool_decide (html = "<p>hi</p>")
  then Some [Tag "p" [] [NavigableString PlainString "hi"]]
  else if bool_decide (html = "<p>Hello</p>")
  then Some [Tag "p" [] [NavigableString PlainString "Hello"]]
  else if bool_decide (html = "<p>Hello <b>world</b></p>")
  then Some [Tag "p" [] [NavigableString PlainString "Hello ";
                         Tag "b" [] [NavigableString PlainString "world"]]]
  else Some [NavigableString PlainString html].

(** ** What the program exchanges with the outside *)

(** An exception of class [Exception], with what it reports. *)
Inductive exn := Exception (what : string).

(** The value of a database cell. *)
Inductive sqlval := SqlNull | SqlInt (z : Z) | SqlStr (s : string).

Global Instance sqlval_eq_dec : EqDecision sqlval.
Proof. solve_decision. Defined.

(** The JSON of a reply of the translation service: an array of items, each
    with an optional list ["translations"] of objects with an optional
    ["text"]. *)
Record translation := { tr_text : option string }.
Record item := { translations : option (list translation) }.

(** The arguments of [requests.post]. *)
Record request := {
  url : string;
  headers : list (string * string);
  json_body : list string;         (* the ["Text"] of each item of [body] *)
  timeout : Z;
}.

(** What [requests.post] gives: a response, with [json] being [None] when
    [r.json()] raises, or an exception of the transport. *)
Inductive reply :=
| Response (status_code : Z) (body_text : string) (json : option (list item))
| TransportError (e : exn).

(** The SQL statements of the program.  The names are the identifiers the
    source quotes with [quote_ident], or passes as parameters to the
    queries on [INFORMATION_SCHEMA]. *)
Inductive stmt :=
| SelectColumns (schema : option string) (table : string)
| CountColumn (dbname : option string) (table target_col : string)
| AlterAddColumn (table target_col : string)
| CountPending (table col target_col : string)
| SelectPending (table pk col target_col : string) (limit offset : Z)
| UpdateRow (table target_col col pk : string)
    (target_value col_value : string) (rid : sqlval).

(** What a cursor holds after a statement: the columns of a table as
    [(COLUMN_NAME, DATA_TYPE, COLUMN_KEY)], a count, the pending rows as
    [(primary key, source value)] with [None] for [NULL], or nothing. *)
Inductive result :=
| RColumns (cols : list (string * string * string))
| RCount (n : Z)
| RRows (rows : list (sqlval * option string))
| RDone.

(** The lines the program prints. *)
Inductive message :=
| MsgBody (body : list string)                  (* [print(f"{body}")] *)
| MsgApiStatus (status : Z) (body_text : string)
| MsgApiError (e : exn)
| MsgColumnCreated (target_col table : string)
| MsgNoPrimaryKey (table : string)
| MsgPending (table col : string) (total : Z)
| MsgTranslateError (e : exn)
| MsgBatchError (e : exn)
| MsgUpdateFailed (rid : sqlval) (e : exn)
| MsgSkipRow (rid : sqlval)
| MsgProgress (processed total : Z).

(** The events of a run, in program order. *)
Inductive event :=
| EvPrint (m : message)
| EvPost (req : request) (r : reply)
| EvSleep (seconds : Z)
| EvTranslateHtml (html : string)
| EvTranslateBatch (texts : list string)
| EvSql (s : stmt) (r : exn + result)
| EvCommit.

(** ** Effects: state, exceptions and the events *)

Inductive outcome (A : Type) :=
| Ok (a : A)
| Raise (e : exn)
| OutOfFuel.
Global Arguments Ok {A} a.
Global Arguments Raise {A} e.
Global Arguments OutOfFuel {A}.

(** A computation on a state [S]: its outcome, the state it leaves and the
    events it caused. *)
Definition M (S A : Type) : Type := S → outcome A * S * list event.

Definition ret {S A} (a : A) : M S A := λ s, (Ok a, s, []).

Definition raise {S A} (e : exn) : M S A := λ s, (Raise e, s, []).

Definition bind {S A B} (m : M S A) (k : A → M S B) : M S B :=
  λ s,
    match m s with
    | (Ok a, s1, ev1) =>
        let '(r, s2, ev2) := k a s1 in (r, s2, ev1 ++ ev2)
    | (Raise e, s1, ev1) => (Raise e, s1, ev1)
    | (OutOfFuel, s1, ev1) => (OutOfFuel, s1, ev1)
    end.

Global Instance M_ret {S} : MRet (M S) := λ A, ret.
Global Instance M_bind {S} : MBind (M S) := λ A B k m, bind m k.

(** [try: body except Exception as e: handler(e)] *)
Definition try_except {S A} (body : M S A) (handler : exn → M S A) : M S A :=
  λ s,
    match body s with
    | (Raise e, s1, ev1) =>
        let '(r, s2, ev2) := handler e s1 in (r, s2, ev1 ++ ev2)
    | other => other
    end.

Definition emit {S} (e : event) : M S unit := λ s, (Ok (), s, [e]).

Definition print {S} (m : message) : M S unit := emit (EvPrint m).

(** ** The translation client *)

Record TranslatorAPI_MIC := {
  key : string;
  region : string;
  target_lang : string;
  endpoint : string;
}.

(** [TranslatorAPI_MIC.__init__] *)
Definition TranslatorAPI_MIC_init (key region target_lang endpoint : string)
    : exn + TranslatorAPI_MIC :=
  if negb (Py.truthy key) || negb (Py.truthy region)
  then inl (Exception "ValueError")
  else inr {| key := key; region := region; target_lang := target_lang;
              endpoint := Py.rstrip_of (λ c, bool_decide (c = "/"%char)) endpoint |}.

(** [tr[0].get("text", "") if tr else ""], for [tr = item.get("translations", [])] *)
Definition first_text (it : item) : string :=
  match translations it with
  | Some (t :: _) => default "" (tr_text t)
  | Some [] | None => ""
  end.

Section Client.

(** The network: [requests.post] on a state of the outside world. *)
Variable Net : Type.
Variable post : request → Net → reply * Net.

Definition requests_post (req : request)
    : M Net (Z * string * option (list item)) :=
  λ n,
    let '(r, n') := post req n in
    match r with
    | Response status body_text json =>
        (Ok (status, body_text, json), n', [EvPost req r])
    | TransportError e => (Raise e, n', [EvPost req r])
    end.

(** One pass through the body of the [try] of [translate_batch]:
    [Some out] when the pass returns [out], [None] to go round again. *)
Definition attempt_once (req : request) : M Net (option (list string)) :=
  try_except
    ('(status, body_text, json) ← requests_post req;
     if status =? 200 then
       match json with
       | Some data => ret (Some (first_text <$> data))
       | None => raise (Exception "JSONDecodeError")
       end
     else
       print (MsgBody (json_body req));;
       print (MsgApiStatus status body_text);;
       ret None)
    (λ e,
       print (MsgBody (json_body req));;
       print (MsgApiError e);;
       ret None).

(** The loop [while attempt < retry]. *)
Fixpoint attempts (fuel : nat) (req : request) (texts : list string)
    (retry attempt : Z) : M Net (list string) :=
  if attempt <? retry then
    match fuel with
    | O => λ n, (OutOfFuel, n, [])
    | S fuel' =>
        r ← attempt_once req;
        match r with
        | Some out => ret out
        | None =>
            let attempt := attempt + 1 in
            emit (EvSleep (2 ^ attempt));;
            attempts fuel' req texts retry attempt
        end
    end
  else ret (replicate (length texts) "").

(** [TranslatorAPI_MIC.translate_batch(texts, lang, retry, timeout)] *)
Definition translate_batch (self : TranslatorAPI_MIC) (texts : list string)
    (lang : option string) (retry timeout : Z) : M Net (list string) :=
  match texts with
  | [] => ret []
  | _ =>
      let target_lang :=
        if Py.truthy_opt lang then default "" lang else target_lang self in
      let url := endpoint self +:+ "/translate?api-version=3.0&to="
                 +:+ target_lang +:+ "&textType=html" in
      let headers :=
        [("Ocp-Apim-Subscription-Key", key self);
         ("Ocp-Apim-Subscription-Region", region self);
         ("Content-Type", "application/json")] in
      let req := {| url := url; headers := headers;
                    json_body := texts; timeout := timeout |} in
      attempts (Z.to_nat retry) req texts retry 0
  end.

Definition default_retry : Z := 3.
Definition default_timeout : Z := 30.

(** [TranslatorAPI_MIC.translate_html(html, lang)] *)
Definition translate_html (parser : string → option (list node))
    (to_str : node → string) (self : TranslatorAPI_MIC)
    (html : string) (lang : option string) : M Net string :=
  match extract_text_nodes parser html with
  | None => raise (Exception "ParserError")
  | Some [] => ret html
  | Some nodes =>
      let texts := text <$> nodes in
      translated_texts ←
        translate_batch self texts lang default_retry default_timeout;
      match rebuild_html_from_nodes parser to_str html translated_texts with
      | Some html' => ret html'
      | None => raise (Exception "ParserError")
      end
  end.

End Client.

(** Whether a reply is a failed attempt: an exception of the transport or a
    status other than 200. *)
Definition failed (r : reply) : bool :=
  match r with
  | Response status _ _ => negb (status =? 200)
  | TransportError _ => true
  end.

(** The items of a reply that ends the attempts: status 200 with a body
    that [r.json()] decodes. *)
Definition success_data (r : reply) : option (list item) :=
  match r with
  | Response status _ (Some data) => if status =? 200 then Some data else None
  | _ => None
  end.

(** The replies of the posts of a run, in order. *)
Definition replies (evs : list event) : list reply :=
  omap (λ e, match e with EvPost _ r => Some r | _ => None end) evs.

(** A network that plays a script: each post takes the next reply, and the
    transport fails once the script is over. *)
Definition scripted_post (req : request) (script : list reply)
    : reply * list reply :=
  match script with
  | r :: rest => (r, rest)
  | [] => (TransportError (Exception "ConnectionError"), [])
  end.

(** A client object for the examples. *)
Definition translator_example : TranslatorAPI_MIC :=
  {| key := "k"; region := "westeurope"; target_lang := "de";
     endpoint := "https://api.cognitive.microsofttranslator.com" |}.

(** A network whose every reply is [503 Service Unavailable]. *)
Definition unavailable_post (req : request) (n : unit) : reply * unit :=
  (Response 503 "Service Unavailable" None, n).

(** ** The resumable batch updater *)

(** The [translator] argument of [translate_and_update]: an object with the
    two methods, on a state [T] of its own. *)
Record translator (T : Type) := {
  tr_translate_html : string → option string → T → (exn + string) * T;
  tr_translate_batch : list string → option string → T → (exn + list string) * T;
}.
Global Arguments tr_translate_html {T} _ _ _ _.
Global Arguments tr_translate_batch {T} _ _ _ _.

(** The entry [{"total": .., "ok": .., "fail": ..}] of the summary. *)
Record ledger := { total : Z; ok : Z; fail : Z }.

Definition incr_ok (l : ledger) : ledger :=
  {| total := total l; ok := ok l + 1; fail := fail l |}.
Definition incr_fail (l : ledger) : ledger :=
  {| total := total l; ok := ok l; fail := fail l + 1 |}.

Fixpoint zip3 {A B C} (la : list A) (lb : list B) (lc : list C)
    : list (A * B * C) :=
  match la, lb, lc with
  | a :: la', b :: lb', c :: lc' => (a, b, c) :: zip3 la' lb' lc'
  | _, _, _ => []
  end.

Section Updater.

(** The database behind [conn]: what [cursor.execute] and [conn.commit]
    do to its state, and the attribute [conn.database]. *)
Context {Store T : Type}.
Variable execute : stmt → Store → (exn + result) * Store.
Variable commit : Store → (exn + unit) * Store.
Variable conn_database : option string.
Variable parser : string → option (list node).
Variable translator : translator T.

(** The state of a run: the database and the translator. *)
Local Abbreviation W := (Store * T)%type.

Definition cursor_execute (s : stmt) : M W result :=
  λ w,
    let '(r, st) := execute s w.1 in
    match r with
    | inr res => (Ok res, (st, w.2), [EvSql s r])
    | inl e => (Raise e, (st, w.2), [EvSql s r])
    end.

Definition conn_commit : M W unit :=
  λ w,
    let '(r, st) := commit w.1 in
    match r with
    | inr _ => (Ok (), (st, w.2), [EvCommit])
    | inl e => (Raise e, (st, w.2), [EvCommit])
    end.

(** [cursor.fetchone()[0]] of a count, [cursor.fetchall()] of rows. *)
Definition fetch_count (r : result) : M W Z :=
  match r with RCount n => ret n | _ => raise (Exception "TypeError") end.

Definition fetch_columns (r : result) : M W (list (string * string * string)) :=
  match r with RColumns cols => ret cols | _ => raise (Exception "TypeError") end.

Definition fetch_rows (r : result) : M W (list (sqlval * option string)) :=
  match r with RRows rows => ret rows | _ => raise (Exception "TypeError") end.

(** [list_table_columns(conn, schema, table)] *)
Definition list_table_columns (schema : option string) (table : string)
    : M W (list (string * string * string)) :=
  r ← cursor_execute (SelectColumns schema table);
  fetch_columns r.

(** [detect_primary_key(conn, schema, table)] *)
Definition detect_primary_key (schema : option string) (table : string)
    : M W (option string) :=
  cols ← list_table_columns schema table;
  match List.find (λ c, bool_decide (c.2 = "PRI")) cols with
  | Some (col, _, _) => ret (Some col)
  | None =>
      match cols with
      | (col, _, _) :: _ => ret (Some col)
      | [] => ret None
      end
  end.

(** [add_target_column_if_needed(conn, table, target_col, schema)] *)
Definition add_target_column_if_needed (table target_col : string)
    (schema : option string) : M W unit :=
  let dbname := if Py.truthy_opt schema then schema else conn_database in
  r ← cursor_execute (CountColumn dbname table target_col);
  n ← fetch_count r;
  let exists_ := 0 <? n in
  if negb exists_ then
    cursor_execute (AlterAddColumn table target_col);;
    conn_commit;;
    print (MsgColumnCreated target_col table)
  else ret ().

(** A call of a method of [translator]: it returns or it raises. *)
Definition call {A} (f : T → (exn + A) * T) : M W A :=
  λ w,
    let '(r, t) := f w.2 in
    match r with
    | inr a => (Ok a, (w.1, t), [])
    | inl e => (Raise e, (w.1, t), [])
    end.

(** The body of the loop [for txt in texts], with its [try]. *)
Definition translate_row (lang : string) (txt : string) : M W string :=
  try_except
    (if is_html parser (Some txt) then
       emit (EvTranslateHtml txt);;
       call (tr_translate_html translator txt (Some lang))
     else
       emit (EvTranslateBatch [txt]);;
       l ← call (tr_translate_batch translator [txt] (Some lang));
       match l with
       | tr :: _ => ret tr
       | [] => raise (Exception "IndexError")
       end)
    (λ e, print (MsgTranslateError e);; ret "").

Fixpoint translate_rows (lang : string) (texts : list string)
    : M W (list string) :=
  match texts with
  | [] => ret []
  | txt :: rest =>
      tr ← translate_row lang txt;
      translations ← translate_rows lang rest;
      ret (tr :: translations)
  end.

(** The outer [try] around the loop. *)
Definition translate_page (lang : string) (texts : list string)
    : M W (list string) :=
  try_except (translate_rows lang texts)
    (λ e, print (MsgBatchError e);; ret (replicate (length texts) "")).

(** The body of the loop [for rid, src, tr in zip(ids, texts, translations)];
    [l] is the dictionary [summary[table][col]], updated in place. *)
Definition write_row (table col target_col pk : string)
    (row : sqlval * string * string) (l : ledger) : M W ledger :=
  let '(rid, src, tr) := row in
  if Py.truthy tr && Py.truthy (Py.strip tr) then
    try_except
      (cursor_execute (UpdateRow table target_col col pk tr tr rid);;
       ret (incr_ok l))
      (λ e, print (MsgUpdateFailed rid e);; ret (incr_fail l))
  else
    print (MsgSkipRow rid);;
    ret (incr_fail l).

Fixpoint write_back (table col target_col pk : string)
    (rows : list (sqlval * string * string)) (l : ledger) : M W ledger :=
  match rows with
  | [] => ret l
  | row :: rest =>
      l ← write_row table col target_col pk row l;
      write_back table col target_col pk rest l
  end.

(** One page, from the fetched rows to the commit. *)
Definition process_page (table col target_col pk lang : string)
    (rows : list (sqlval * option string)) (l : ledger) : M W ledger :=
  let ids := fst <$> rows in
  let texts := (λ r, default "" r.2) <$> rows in
  translations ← translate_page lang texts;
  l ← write_back table col target_col pk (zip3 ids texts translations) l;
  conn_commit;;
  ret l.

(** The loop [while offset < total]. *)
Fixpoint page_loop (fuel : nat) (table col target_col pk lang : string)
    (batch_size total offset : Z) (l : ledger) : M W ledger :=
  if offset <? total then
    match fuel with
    | O => λ w, (OutOfFuel, w, [])
    | S fuel' =>
        r ← cursor_execute
              (SelectPending table pk col target_col batch_size offset);
        rows ← fetch_rows r;
        match rows with
        | [] => ret l                                     (* [break] *)
        | _ =>
            l ← process_page table col target_col pk lang rows l;
            let offset := offset + batch_size in
            print (MsgProgress (Z.min offset total) total);;
            page_loop fuel' table col target_col pk lang
              batch_size total offset l
        end
    end
  else ret l.

(** The loop [for col in cols]; [entry] is [summary[table]]. *)
Fixpoint columns_loop (fuel : nat) (table pk : string)
    (schema : option string) (lang : string) (batch_size : Z)
    (cols : list string) (entry : gmap string ledger)
    : M W (gmap string ledger) :=
  match cols with
  | [] => ret entry
  | col :: rest =>
      let target_col := col +:+ "_" +:+ lang in
      add_target_column_if_needed table target_col schema;;
      r ← cursor_execute (CountPending table col target_col);
      total ← fetch_count r;
      print (MsgPending table col total);;
      l ← page_loop fuel table col target_col pk lang batch_size total 0
            {| total := total; ok := 0; fail := 0 |};
      columns_loop fuel table pk schema lang batch_size rest
        (<[col := l]> entry)
  end.

(** The loop [for table, cols in selections.items()]. *)
Fixpoint tables_loop (fuel : nat) (schema : option string) (lang : string)
    (batch_size : Z) (selections : list (string * list string))
    (summary : gmap string (gmap string ledger))
    : M W (gmap string (gmap string ledger)) :=
  match selections with
  | [] => ret summary
  | (table, cols) :: rest =>
      match cols with
      | [] => tables_loop fuel schema lang batch_size rest summary
      | _ =>
          pk ← detect_primary_key schema table;
          if negb (Py.truthy_opt pk) then
            print (MsgNoPrimaryKey table);;
            tables_loop fuel schema lang batch_size rest summary
          else
            entry ← columns_loop fuel table (default "" pk) schema lang
                      batch_size cols ∅;
            tables_loop fuel schema lang batch_size rest
              (<[table := entry]> summary)
      end
  end.

(** [translate_and_update(conn, translator, selections, schema, lang,
    batch_size)]; [fuel] bounds the pages of each column. *)
Definition translate_and_update (fuel : nat)
    (selections : list (string * list string)) (schema : option string)
    (lang : string) (batch_size : Z)
    : M W (gmap string (gmap string ledger)) :=
  tables_loop fuel schema lang batch_size selections ∅.

End Updater.

(** ** Vocabulary for the properties of the updater *)

(** The statements of a run, in order. *)
Definition statements (evs : list event) : list stmt :=
  omap (λ e, match e with EvSql s _ => Some s | _ => None end) evs.

(** The statement that writes a row back. *)
Definition update_of (table col target_col pk : string)
    (row : sqlval * string * string) : stmt :=
  UpdateRow table target_col col pk row.2 row.2 row.1.1.

(** The translated value is non-empty after trimming. *)
Definition nonblank (tr : string) : bool :=
  negb (bool_decide (Py.strip tr = "")).

(** The [LIMIT] and [OFFSET] of the pages a run fetched, the rows of these
    pages, the texts given to the translator and the rows written back or
    skipped. *)
Definition fetches (evs : list event) : list (Z * Z) :=
  omap (λ e, match e with
             | EvSql (SelectPending _ _ _ _ limit offset) _ => Some (limit, offset)
             | _ => None
             end) evs.

Definition pages (evs : list event) : list (list (sqlval * option string)) :=
  omap (λ e, match e with
             | EvSql (SelectPending _ _ _ _ _ _) (inr (RRows rows)) => Some rows
             | _ => None
             end) evs.

Definition texts_translated (evs : list event) : list string :=
  omap (λ e, match e with
             | EvTranslateHtml txt => Some txt
             | EvTranslateBatch [txt] => Some txt
             | _ => None
             end) evs.

Definition rows_settled (evs : list event) : list sqlval :=
  omap (λ e, match e with
             | EvSql (UpdateRow _ _ _ _ _ _ rid) _ => Some rid
             | EvPrint (MsgSkipRow rid) => Some rid
             | _ => None
             end) evs.

(** The primary keys and the texts of the rows of a page: [r[0]] and
    [r[1] or ""]. *)
Definition page_ids (rows : list (sqlval * option string)) : list sqlval :=
  fst <$> rows.

Definition page_texts (rows : list (sqlval * option string)) : list string :=
  (λ r, default "" r.2) <$> rows.

(** The [LIMIT] and [OFFSET] of [n] pages fetched from [offset] on. *)
Definition fetch_plan (batch_size offset : Z) (n : nat) : list (Z * Z) :=
  (λ k : nat, (batch_size, offset + Z.of_nat k * batch_size)) <$> seq 0 n.

(** The event is a fetch that gave no rows to read: the statement raised,
    or its result is not a list of rows. *)
Definition failed_fetch (e : event) : bool :=
  match e with
  | EvSql (SelectPending _ _ _ _ _ _) (inr (RRows _)) => false
  | EvSql (SelectPending _ _ _ _ _ _) _ => true
  | _ => false
  end.

(** The event of the call made for a text. *)
Definition call_event (parser : string → option (list node)) (txt : string)
    : event :=
  if is_html parser (Some txt) then EvTranslateHtml txt
  else EvTranslateBatch [txt].

(** Whether the call made for a text raises [e] and leaves the translator
    in [t]. *)
Definition call_raises {T} (parser : string → option (list node))
    (translator : translator T) (lang txt : string) (t0 : T)
    (e : exn) (t : T) : Prop :=
  if is_html parser (Some txt)
  then tr_translate_html translator txt (Some lang) t0 = (inl e, t)
  else tr_translate_batch translator [txt] (Some lang) t0 = (inl e, t).

(** The [ALTER TABLE] statements of a run. *)
Definition alters (evs : list event) : list stmt :=
  List.filter (λ s, match s with AlterAddColumn _ _ => true | _ => false end)
    (statements evs).

(** A committed [ALTER TABLE] shows in the metadata: after the probe, the
    statement and the commit, the probe counts the column. *)
Definition alter_is_visible {Store} (execute : stmt → Store → (exn + result) * Store)
    (commit : Store → (exn + unit) * Store)
    (dbname : option string) (table target_col : string) (st : Store) : Prop :=
  ∀ n st1 r st2 u st3,
    execute (CountColumn dbname table target_col) st = (inr (RCount n), st1) →
    execute (AlterAddColumn table target_col) st1 = (inr r, st2) →
    commit st2 = (inr u, st3) →
    ∃ n' st4,
      execute (CountColumn dbname table target_col) st3 = (inr (RCount n'), st4)
      ∧ 0 < n'.

(** ** A database in memory, and translators, for the examples *)

Record mem_table := {
  mt_columns : list (string * string * string);
  mt_rows : list (gmap string sqlval);
}.

Record mem_db := {
  db_name : string;
  db_tables : gmap string mem_table;
}.

Definition has_column (t : mem_table) (c : string) : bool :=
  existsb (λ x, bool_decide (x.1.1 = c)) (mt_columns t).

(** The predicate of the pending rows: the source is neither [NULL] nor
    empty, the target is [NULL] or empty. *)
Definition pending (col target_col : string) (row : gmap string sqlval) : bool :=
  match row !! col with
  | Some (SqlStr s) => Py.truthy s
  | _ => false
  end
  && match row !! target_col with
     | None | Some SqlNull => true
     | Some (SqlStr s) => negb (Py.truthy s)
     | Some (SqlInt _) => false
     end.

Definition set_tables (db : mem_db) (tables : gmap string mem_table) : mem_db :=
  {| db_name := db_name db; db_tables := tables |}.

Definition mem_execute (s : stmt) (db : mem_db) : (exn + result) * mem_db :=
  match s with
  | SelectColumns schema table =>
      match db_tables db !! table with
      | Some t =>
          if bool_decide (schema = Some (db_name db))
          then (inr (RColumns (mt_columns t)), db)
          else (inr (RColumns []), db)
      | None => (inr (RColumns []), db)
      end
  | CountColumn dbname table target_col =>
      match db_tables db !! table with
      | Some t =>
          if bool_decide (dbname = Some (db_name db)) && has_column t target_col
          then (inr (RCount 1), db)
          else (inr (RCount 0), db)
      | None => (inr (RCount 0), db)
      end
  | AlterAddColumn table target_col =>
      match db_tables db !! table with
      | Some t =>
          if has_column t target_col
          then (inl (Exception "1060 Duplicate column name"), db)
          else (inr RDone,
                set_tables db
                  (<[table := {| mt_columns := mt_columns t
                                   ++ [(target_col, "longtext", "")];
                                 mt_rows := mt_rows t |}]> (db_tables db)))
      | None => (inl (Exception "1146 Table does not exist"), db)
      end
  | CountPending table col target_col =>
      match db_tables db !! table with
      | Some t =>
          if has_column t col && has_column t target_col
          then (inr (RCount (Z.of_nat
                  (length (List.filter (pending col target_col) (mt_rows t))))),
                db)
          else (inl (Exception "1054 Unknown column"), db)
      | None => (inl (Exception "1146 Table does not exist"), db)
      end
  | SelectPending table pk col target_col limit offset =>
      match db_tables db !! table with
      | Some t =>
          if has_column t pk && has_column t col && has_column t target_col
          then
            if (limit <? 0) || (offset <? 0)
            then (inl (Exception "1064 Syntax error"), db)
            else
              (inr (RRows
                 ((λ row,
                     (default SqlNull (row !! pk),
                      match row !! col with
                      | Some (SqlStr s) => Some s
                      | _ => None
                      end))
                  <$> take (Z.to_nat limit)
                        (drop (Z.to_nat offset)
                           (List.filter (pending col target_col) (mt_rows t))))),
               db)
          else (inl (Exception "1054 Unknown column"), db)
      | None => (inl (Exception "1146 Table does not exist"), db)
      end
  | UpdateRow table target_col col pk target_value col_value rid =>
      match db_tables db !! table with
      | Some t =>
          if has_column t pk && has_column t col && has_column t target_col
          then
            (inr RDone,
             set_tables db
               (<[table := {| mt_columns := mt_columns t;
                              mt_rows :=
                                (λ row,
                                   if bool_decide (row !! pk = Some rid)
                                   then <[col := SqlStr col_value]>
                                          (<[target_col := SqlStr target_value]> row)
                                   else row) <$> mt_rows t |}]> (db_tables db)))
          else (inl (Exception "1054 Unknown column"), db)
      | None => (inl (Exception "1146 Table does not exist"), db)
      end
  end.

Definition mem_commit (db : mem_db) : (exn + unit) * mem_db := (inr (), db).

(** The table [doc] of the scenarios: key [id], column [title]. *)
Definition doc_db : mem_db :=
  {| db_name := "cms";
     db_tables :=
       {[ "doc" :=
            {| mt_columns := [("id", "int", "PRI"); ("title", "text", "")];
               mt_rows :=
                 [ {[ "id" := SqlInt 1; "title" := SqlStr "<p>Hello</p>" ]};
                   {[ "id" := SqlInt 2; "title" := SqlStr "World" ]} ] |} ]} |}.

(** The same table once the destination column [title_de] is there. *)
Definition doc_db_ready : mem_db :=
  {| db_name := "cms";
     db_tables :=
       {[ "doc" :=
            {| mt_columns := [("id", "int", "PRI"); ("title", "text", "");
                              ("title_de", "longtext", "")];
               mt_rows :=
                 [ {[ "id" := SqlInt 1; "title" := SqlStr "<p>Hello</p>" ]};
                   {[ "id" := SqlInt 2; "title" := SqlStr "World" ]} ] |} ]} |}.

Definition ledger0 : ledger := {| total := 2; ok := 0; fail := 0 |}.

(** A database with a table that has no column at all. *)
Definition bare_db : mem_db :=
  {| db_name := "cms";
     db_tables :=
       {[ "bare" := {| mt_columns := []; mt_rows := [] |};
          "doc" :=
            {| mt_columns := [("id", "int", "PRI"); ("title", "text", "")];
               mt_rows :=
                 [ {[ "id" := SqlInt 1; "title" := SqlStr "World" ]} ] |} ]} |}.

(** A table with columns and rows, and without a primary key. *)
Definition log_db : mem_db :=
  {| db_name := "cms";
     db_tables :=
       {[ "log" :=
            {| mt_columns := [("day", "int", ""); ("msg", "text", "")];
               mt_rows :=
                 [ {[ "day" := SqlInt 1; "msg" := SqlStr "World" ]};
                   {[ "day" := SqlInt 1; "msg" := SqlStr "Hello" ]} ] |} ]} |}.

(** A translator that answers as the stub of the scenarios, one that
    answers the empty string, and one whose calls raise. *)
Definition stub_translator : translator unit :=
  {| tr_translate_html := λ _ _ t, (inr "<p>Hallo</p>", t);
     tr_translate_batch := λ texts _ t, (inr ((λ _, "Welt") <$> texts), t) |}.

Definition empty_translator : translator unit :=
  {| tr_translate_html := λ _ _ t, (inr "", t);
     tr_translate_batch := λ texts _ t, (inr ((λ _, "") <$> texts), t) |}.

Definition failing_translator : translator unit :=
  {| tr_translate_html := λ _ _ t, (inl (Exception "ConnectionError"), t);
     tr_translate_batch := λ _ _ t, (inl (Exception "ConnectionError"), t) |}.

(** The outcome of a call of the client, as a method returns it: the retry
    loop has fuel for its whole budget, so the last case does not occur. *)
Definition returned {A} (r : outcome A) : exn + A :=
  match r with
  | Ok a => inr a
  | Raise e => inl e
  | OutOfFuel => inl (Exception "RecursionError")
  end.

(** The client as a translator: its state is the network and the events
    of its own calls. *)
Definition client_translator {Net} (post : request → Net → reply * Net)
    (parser : string → option (list node)) (to_str : node → string)
    (self : TranslatorAPI_MIC) : translator (Net * list event) :=
  {| tr_translate_html := λ html lang t,
       let '(r, n, evs) := translate_html Net post parser to_str self html lang t.1
       in (returned r, (n, t.2 ++ evs));
     tr_translate_batch := λ texts lang t,
       let '(r, n, evs) :=
         translate_batch Net post self texts lang default_retry default_timeout t.1
       in (returned r, (n, t.2 ++ evs)) |}.

(** ** Identifiers in SQL text *)

(** [s.replace(old, new)] for a one-character [old]. *)
Fixpoint replace_char (old : ascii) (new : string) (s : string) : string :=
  match s with
  | EmptyString => EmptyString
  | String c s' =>
      (if decide (c = old) then new else String c EmptyString)
      +:+ replace_char old new s'
  end.

(** [quote_ident(name)] *)
Definition quote_ident (name : string) : string :=
  "`" +:+ replace_char "`" "``" name +:+ "`".

(** How MySQL reads a quoted identifier at the head of a text: it opens
    with a backtick, two backticks inside stand for one, and the first
    single backtick closes it.  The result is the identifier and the text
    after it. *)
Fixpoint read_quoted_body (s : string) : option (string * string) :=
  match s with
  | EmptyString => None
  | String c s' =>
      if decide (c = "`"%char) then
        match s' with
        | String c' s'' =>
            if decide (c' = "`"%char)
            then '(name, rest) ← read_quoted_body s''; Some (String "`" name, rest)
            else Some (EmptyString, s')
        | EmptyString => Some (EmptyString, EmptyString)
        end
      else '(name, rest) ← read_quoted_body s'; Some (String c name, rest)
  end.

Definition read_quoted (s : string) : option (string * string) :=
  match s with
  | String c s' => if decide (c = "`"%char) then read_quoted_body s' else None
  | EmptyString => None
  end.

Definition starts_with_backtick (s : string) : bool :=
  match s with
  | String c _ => bool_decide (c = "`"%char)
  | EmptyString => false
  end.

(** ** The choice of the columns *)

(** [c.lower()] for a character with a code point below 256. *)
Definition lower_char (c : ascii) : ascii :=
  let n := Ascii.nat_of_ascii c in
  if ((65 <=? n) && (n <=? 90) || (192 <=? n) && (n <=? 214)
      || (216 <=? n) && (n <=? 222))%nat
  then Ascii.ascii_of_nat (n + 32) else c.

Fixpoint lower (s : string) : string :=
  match s with
  | EmptyString => EmptyString
  | String c s' => String (lower_char c) (lower s')
  end.

(** [s.split(sep)] for a one-character [sep]. *)
Fixpoint split_char (sep : ascii) (s : string) : list string :=
  match s with
  | EmptyString => [EmptyString]
  | String c s' =>
      if decide (c = sep) then EmptyString :: split_char sep s'
      else match split_char sep s' with
           | piece :: rest => String c piece :: rest
           | [] => [String c EmptyString]
           end
  end.

(** [s.split(sep, 1)] when [sep] is in [s]: the two pieces. *)
Fixpoint split_once (sep : ascii) (s : string) : option (string * string) :=
  match s with
  | EmptyString => None
  | String c s' =>
      if decide (c = sep) then Some (EmptyString, s')
      else '(a, b) ← split_once sep s'; Some (String c a, b)
  end.

(** [list(range(a, b))] *)
Definition range (a b : Z) : list Z :=
  (λ k : nat, a + Z.of_nat k) <$> seq 0 (Z.to_nat (b - a)).

(** The lines [interactive_select_columns] prints, and its prompt. *)
Inductive console_line :=
| LineTable (table : string)
| LineColumn (i : Z) (col dtype : string) (primary : bool)
| LinePrompt.

Section Select.

(** [int(s)], [None] when it raises [ValueError], and [s.isdigit()]. *)
Variable py_int : string → option Z.
Variable isdigit : string → bool.

(** The body of the loop [for tok in user.split(",")]: what it adds to
    [idxs], or the exception of [int(tok)]. *)
Definition token_indexes (tok : string) : exn + list Z :=
  let tok := Py.strip tok in
  if Py.contains "-" tok then
    match split_once "-" tok with
    | Some (a, b) =>
        match py_int a, py_int b with
        | Some a1, Some b1 => inr (range a1 (b1 + 1))
        | _, _ => inr []                                  (* [except: pass] *)
        end
    | None => inr []
    end
  else if isdigit tok then
    match py_int tok with
    | Some i => inr [i]
    | None => inl (Exception "ValueError")
    end
  else inr [].

Fixpoint tokens_indexes (toks : list string) (idxs : list Z) : exn + list Z :=
  match toks with
  | [] => inr idxs
  | tok :: rest =>
      match token_indexes tok with
      | inr more => tokens_indexes rest (idxs ++ more)
      | inl e => inl e
      end
  end.

(** [[cols[i - 1][0] for i in idxs if 1 <= i <= len(cols)]] *)
Definition pick_columns (cols : list (string * string * string))
    (idxs : list Z) : list string :=
  omap (λ i : Z,
          if (1 <=? i) && (i <=? Z.of_nat (length cols))
          then (λ c : string * string * string, c.1.1) <$> cols !! Z.to_nat (i - 1)
          else None) idxs.

(** What one answer selects in a table: the value of [selections[t]]. *)
Definition select_columns (cols : list (string * string * string))
    (answer : string) : exn + list string :=
  let user := Py.strip answer in
  if negb (Py.truthy user) then inr []
  else if bool_decide (lower user = "all") then inr ((λ c, c.1.1) <$> cols)
  else
    match tokens_indexes (split_char "," user) [] with
    | inr idxs => inr (pick_columns cols idxs)
    | inl e => inl e
    end.

(** The lines printed for a table, up to its prompt. *)
Definition table_lines (t : string) (cols : list (string * string * string))
    : list console_line :=
  LineTable t
  :: imap (λ i c, LineColumn (Z.of_nat i + 1) c.1.1 c.1.2
                    (bool_decide (c.2 = "PRI"))) cols
  ++ [LinePrompt].

(** [interactive_select_columns(tables_cols)], on the answers still to be
    typed: the selections or the exception, the answers left, and the
    lines printed.  The items of the dictionary [tables_cols] come in its
    order; [input] raises [EOFError] when no answer is left. *)
Fixpoint interactive_select_columns
    (tables_cols : list (string * list (string * string * string)))
    (answers : list string)
    : (exn + list (string * list string)) * list string * list console_line :=
  match tables_cols with
  | [] => (inr [], answers, [])
  | (t, cols) :: rest =>
      match answers with
      | [] => (inl (Exception "EOFError"), [], table_lines t cols)
      | answer :: answers' =>
          match select_columns cols answer with
          | inl e => (inl e, answers', table_lines t cols)
          | inr sel =>
              let '(r, remaining, out) := interactive_select_columns rest answers' in
              (match r with
               | inr selections => inr ((t, sel) :: selections)
               | inl e => inl e
               end, remaining, table_lines t cols ++ out)
          end
      end
  end.

End Select.

(** ** Vocabulary for the further properties *)

(** A value that extraction gives back as it is: not blank, and without
    surrounding white space. *)
Definition well_trimmed (v : string) : bool :=
  Py.truthy (Py.strip v) && bool_decide (Py.strip v = v).

(** The number of text leaves of a tree. *)
Definition leaf_count (el : node) : nat :=
  length (List.filter extractable (strings el)).

(** The tree with every text leaf replaced by an empty plain string. *)
Fixpoint blank_leaves (el : node) : node :=
  match el with
  | NavigableString cls s =>
      if extractable (cls, s) then NavigableString PlainString "" else el
  | Tag name attrs contents => Tag name attrs (blank_leaves <$> contents)
  end.

(** Replacing with [m] empty values, enough for the text leaves of [c],
    empties them all. *)
Definition blank_spec (m : nat) (c : node) : Prop :=
  is_tag c = true → ∀ idx, (idx + leaf_count c ≤ m)%nat →
    recurse_replace (replicate m "") c idx
    = (blank_leaves c, (idx + leaf_count c)%nat).

Fixpoint all_chars (p : ascii → bool) (s : string) : bool :=
  match s with
  | EmptyString => true
  | String c s' => p c && all_chars p s'
  end.

Fixpoint last_char (s : string) : option ascii :=
  match s with
  | EmptyString => None
  | String c EmptyString => Some c
  | String _ s' => last_char s'
  end.

(** The requests and the waits of a run, in order. *)
Definition posts (evs : list event) : list request :=
  omap (λ e, match e with EvPost req _ => Some req | _ => None end) evs.

Definition sleeps (evs : list event) : list Z :=
  omap (λ e, match e with EvSleep s => Some s | _ => None end) evs.

(** A reply that does not end the attempts: an exception of the transport,
    a status other than 200, or a body that [r.json()] does not decode. *)
Definition no_data (r : reply) : bool :=
  match success_data r with Some _ => false | None => true end.

(** The request of a call of [translate_batch]. *)
Definition request_of (self : TranslatorAPI_MIC) (texts : list string)
    (lang : option string) (timeout : Z) : request :=
  {| url := endpoint self +:+ "/translate?api-version=3.0&to="
            +:+ (match lang with
                 | Some (String c l) => String c l
                 | _ => target_lang self
                 end) +:+ "&textType=html";
     headers := [("Ocp-Apim-Subscription-Key", key self);
                 ("Ocp-Apim-Subscription-Region", region self);
                 ("Content-Type", "application/json")];
     json_body := texts; timeout := timeout |}.

(** The waits of [m] failed attempts in a row, the first being attempt
    number [attempt]. *)
Definition backoff (attempt : Z) (m : nat) : list Z :=
  (λ k : nat, 2 ^ (attempt + 1 + Z.of_nat k)) <$> seq 0 m.

(** The number of rows whose [UPDATE] executed, and of commits, in a run. *)
Definition updates_done (evs : list event) : nat :=
  length (List.filter (λ e, match e with
                            | EvSql (UpdateRow _ _ _ _ _ _ _) (inr _) => true
                            | _ => false
                            end) evs).

Definition commits (evs : list event) : nat :=
  length (List.filter (λ e, match e with EvCommit => true | _ => false end) evs).

(** An event that is neither a statement nor a commit. *)
Definition quiet (e : event) : bool :=
  match e with EvSql _ _ | EvCommit => false | _ => true end.

Definition nonempty_page (rows : list (sqlval * option string)) : bool :=
  match rows with [] => false | _ => true end.

Definition column_names (cols : list (string * string * string)) : list string :=
  (λ c, c.1.1) <$> cols.

Definition is_primary (c : string * string * string) : bool :=
  bool_decide (c.2 = "PRI").

(** The column [col] of [table] is selected. *)
Definition selected (selections : list (string * list string))
    (table col : string) : Prop :=
  ∃ cols, (table, cols) ∈ selections ∧ col ∈ cols.

(** What a statement of a run for [selections] and [lang] may be: a
    statement on a selected table, on a selected column and its
    destination, and a write of one non-blank value to both. *)
Definition stmt_in_scope (selections : list (string * list string))
    (lang : string) (s : stmt) : Prop :=
  match s with
  | SelectColumns _ table => ∃ cols, (table, cols) ∈ selections
  | CountColumn _ table target_col
  | AlterAddColumn table target_col =>
      ∃ col, target_col = col +:+ "_" +:+ lang ∧ selected selections table col
  | CountPending table col target_col
  | SelectPending table _ col target_col _ _ =>
      target_col = col +:+ "_" +:+ lang ∧ selected selections table col
  | UpdateRow table target_col col _ target_value col_value _ =>
      target_col = col +:+ "_" +:+ lang ∧ selected selections table col
      ∧ target_value = col_value ∧ nonblank target_value = true
  end.

Definition event_in_scope (selections : list (string * list string))
    (lang : string) (e : event) : Prop :=
  match e with
  | EvSql s _ => stmt_in_scope selections lang s
  | _ => True
  end.

(** A token of an answer that [isdigit] takes for a number and that [int]
    does not read. *)
Definition unreadable_number (py_int : string → option Z)
    (isdigit : string → bool) (tok : string) : bool :=
  let tok := Py.strip tok in
  negb (Py.contains "-" tok) && isdigit tok
  && match py_int tok with Some _ => false | None => true end.

(** The tokens of an answer: [user.split(",")]. *)
Definition answer_tokens (answer : string) : list string :=
  split_char "," (Py.strip answer).

(** ** More examples *)

(** A serializer for the examples: the markup without the attributes. *)
Fixpoint render_stub (el : node) : string :=
  match el with
  | NavigableString _ s => s
  | Tag name _ contents =>
      let inner := foldr (λ c acc, render_stub c +:+ acc) "" contents in
      if bool_decide (name = "[document]") then inner
      else "<" +:+ name +:+ ">" +:+ inner +:+ "</" +:+ name +:+ ">"
  end.

(** A network that answers 200 with a body that is not JSON. *)
Definition garbled_post (req : request) (n : unit) : reply * unit :=
  (Response 200 "<html>Bad Gateway</html>" None, n).

(** The database in memory for an account that may not alter tables. *)
Definition readonly_execute (s : stmt) (db : mem_db) : (exn + result) * mem_db :=
  match s with
  | AlterAddColumn _ _ => (inl (Exception "1142 ALTER command denied"), db)
  | _ => mem_execute s db
  end.

(** [int] and [isdigit] on the decimal digits. *)
Definition digit_value (c : ascii) : option Z :=
  let n := Ascii.nat_of_ascii c in
  if ((48 <=? n) && (n <=? 57))%nat then Some (Z.of_nat n - 48) else None.

Fixpoint int_digits (s : string) (acc : Z) : option Z :=
  match s with
  | EmptyString => Some acc
  | String c s' => d ← digit_value c; int_digits s' (10 * acc + d)
  end.

Definition int_stub (s : string) : option Z :=
  match s with EmptyString => None | _ => int_digits s 0 end.

Definition isdigit_stub (s : string) : bool :=
  match int_stub s with Some _ => true | None => false end.

(** The columns of two tables, for the examples of the choice. *)
Definition doc_columns : list (string * list (string * string * string)) :=
  [("doc", [("id", "int", "PRI"); ("title", "text", ""); ("body", "text", "")]);
   ("tag", [("name", "varchar", "")])].

(** [isdigit] as it is on the code points below 256: the decimal digits
    and the superscripts one, two and three, which [int] does not read. *)
Definition isdigit_latin1 (s : string) : bool :=
  Py.truthy s
  && all_chars (λ c, let n := Ascii.nat_of_ascii c in
                     ((48 <=? n) && (n <=? 57) || (n =? 178) || (n =? 179)
                      || (n =? 185))%nat) s.

Definition superscript_two : string :=
  String (Ascii.ascii_of_nat 178) EmptyString.

(* ================================================================== *)
(** * Part II: properties                                              *)
(* ================================================================== *)

(** ** The codec *)

Lemma recurse_Tag name attrs contents path :
  recurse (Tag name attrs contents) path
  = recurse_each name attrs path 0 contents.
Proof.
  simpl. generalize 0%nat.
  induction contents as [|c cs IH]; intros idx; simpl; [done|].
  by rewrite IH.
Qed.

Lemma recurse_replace_Tag V name attrs contents idx :
  recurse_replace V (Tag name attrs contents) idx
  = let '(cs', idx') := recurse_replace_each V contents idx in
    (Tag name attrs cs', idx').
Proof.
  simpl.
  match goal with
  | |- (let '(_, _) := ?f contents idx in _) = _ =>
      assert (H : ∀ cs i, f cs i = recurse_replace_each V cs i)
  end.
  { induction cs as [|c cs IH]; intros i; simpl; [done|].
    destruct c as [cls s|n a l].
    - destruct (_ && _); by rewrite IH.
    - destruct (recurse_replace V (Tag n a l) i) as [c' i1]. by rewrite IH. }
  by rewrite H.
Qed.

Lemma strings_Tag name attrs c cs :
  strings (Tag name attrs (c :: cs))
  = strings c ++ strings (Tag name attrs cs).
Proof. done. Qed.

Lemma leaf_values_Tag name attrs c cs :
  leaf_values (Tag name attrs (c :: cs))
  = leaf_values c ++ leaf_values (Tag name attrs cs).
Proof.
  unfold leaf_values. rewrite strings_Tag, List.filter_app.
  by rewrite fmap_app.
Qed.

Lemma leaf_values_string cls s :
  leaf_values (NavigableString cls s)
  = if extractable (cls, s) then [Py.strip s] else [].
Proof. unfold leaf_values. simpl. by destruct (extractable _). Qed.

(** Extraction yields the trimmed text of every text leaf, in order. *)
Lemma recurse_values el path :
  is_tag el = true → text <$> recurse el path = leaf_values el.
Proof.
  revert path. induction el as [cls s|name attrs contents IH] using node_ind;
    intros path Htag; [done|]. clear Htag.
  rewrite recurse_Tag. generalize 0%nat.
  induction IH as [|c cs Hc _ IHcs]; intros idx; [done|].
  rewrite leaf_values_Tag. simpl. rewrite fmap_app, IHcs. f_equal.
  destruct c as [cls s|n a l]; [|by apply Hc].
  rewrite leaf_values_string. unfold extractable. simpl.
  by destruct (Py.truthy _).
Qed.

Lemma fill_app V idx l1 l2 :
  fill V idx (l1 ++ l2)
  = ((fill V idx l1).1 ++ (fill V (fill V idx l1).2 l2).1,
     (fill V (fill V idx l1).2 l2).2).
Proof.
  revert idx. induction l1 as [|x l1 IH]; intros idx; simpl.
  - by destruct (fill V idx l2).
  - destruct (extractable x && _).
    + rewrite IH. by destruct (fill V (S idx) l1).
    + rewrite IH. by destruct (fill V idx l1).
Qed.

Lemma recurse_replace_each_fill V cs :
  Forall (replace_spec V) cs →
  ∀ idx,
    mjoin (strings <$> (recurse_replace_each V cs idx).1)
      = (fill V idx (mjoin (strings <$> cs))).1
    ∧ (recurse_replace_each V cs idx).2 = (fill V idx (mjoin (strings <$> cs))).2
    ∧ skeleton <$> (recurse_replace_each V cs idx).1 = skeleton <$> cs.
Proof.
  induction 1 as [|c cs Hc _ IH]; intros idx; [done|].
  cbn [recurse_replace_each fmap list_fmap mjoin list_join].
  destruct c as [cls s|n a l].
  - cbn [strings app fill].
    change (Py.truthy (Py.strip s)) with (extractable (cls, s)).
    destruct (extractable (cls, s) && _).
    + destruct (IH (S idx)) as (H1 & H2 & H3).
      destruct (recurse_replace_each V cs (S idx)) as [r i].
      destruct (fill V (S idx) _) as [r' i'].
      cbn [fst snd fmap list_fmap mjoin list_join strings skeleton app] in *.
      split_and!; [f_equal; exact H1 | exact H2 | f_equal; exact H3].
    + destruct (IH idx) as (H1 & H2 & H3).
      destruct (recurse_replace_each V cs idx) as [r i].
      destruct (fill V idx _) as [r' i'].
      cbn [fst snd fmap list_fmap mjoin list_join strings skeleton app] in *.
      split_and!; [f_equal; exact H1 | exact H2 | f_equal; exact H3].
  - destruct (Hc idx eq_refl) as (H1 & H2 & H3).
    destruct (recurse_replace V (Tag n a l) idx) as [c' i1].
    cbn [fst snd] in H1, H2, H3. subst i1.
    destruct (IH (fill V idx (strings (Tag n a l))).2) as (G1 & G2 & G3).
    destruct (recurse_replace_each V cs _) as [r i].
    cbn [fst snd] in G1, G2, G3.
    rewrite fill_app. cbn [fst snd fmap list_fmap mjoin list_join].
    split_and!; [by f_equal | done | by f_equal].
Qed.

Lemma recurse_replace_fill V el : replace_spec V el.
Proof.
  induction el as [cls s|name attrs contents IH] using node_ind;
    intros idx Htag; [done|]. clear Htag.
  rewrite recurse_replace_Tag.
  destruct (recurse_replace_each_fill V contents IH idx) as (H1 & H2 & H3).
  destruct (recurse_replace_each V contents idx) as [r i].
  cbn [fst snd] in *. split_and!; [exact H1 | exact H2 | simpl; by f_equal].
Qed.

Lemma recurse_replace_each_echo name attrs cs :
  Forall echo_spec cs →
  ∀ pre suf,
    recurse_replace_each (pre ++ leaf_values (Tag name attrs cs) ++ suf)
      cs (length pre)
    = (trim_leaves <$> cs,
       (length pre + length (leaf_values (Tag name attrs cs)))%nat).
Proof.
  induction 1 as [|c cs Hc _ IH]; intros pre suf.
  { simpl. by rewrite Nat.add_0_r. }
  rewrite leaf_values_Tag. cbn [recurse_replace_each].
  destruct c as [cls s|n a l].
  - rewrite leaf_values_string.
    change (Py.truthy (Py.strip s)) with (extractable (cls, s)).
    cbn [fmap list_fmap trim_leaves].
    destruct (extractable (cls, s)) eqn:E.
    + assert (Hlt : (length pre <? length
        (pre ++ ([Py.strip s] ++ leaf_values (Tag name attrs cs)) ++ suf))%nat
        = true).
      { apply Nat.ltb_lt. rewrite !length_app. simpl. lia. }
      rewrite Hlt. cbn [andb].
      assert (Hnth : nth (length pre)
        (pre ++ ([Py.strip s] ++ leaf_values (Tag name attrs cs)) ++ suf) ""
        = Py.strip s).
      { rewrite app_nth2 by lia. by rewrite Nat.sub_diag. }
      rewrite Hnth.
      specialize (IH (pre ++ [Py.strip s]) suf).
      rewrite <- !app_assoc in IH. rewrite <- !app_assoc.
      rewrite length_app in IH. simpl in IH.
      replace (S (length pre)) with (length pre + 1)%nat by lia.
      simpl. rewrite IH. f_equal. rewrite ?length_app; simpl; lia.
    + cbn [andb app]. rewrite IH. done.
  - rewrite <- app_assoc. rewrite (Hc eq_refl pre).
    specialize (IH (pre ++ leaf_values (Tag n a l)) suf).
    rewrite <- !app_assoc in IH. rewrite length_app in IH.
    rewrite IH. cbn [fmap list_fmap]. f_equal. rewrite length_app. lia.
Qed.

Lemma recurse_replace_echo el : echo_spec el.
Proof.
  induction el as [cls s|name attrs contents IH] using node_ind;
    intros Htag pre suf; [done|].
  rewrite recurse_replace_Tag.
  by rewrite (recurse_replace_each_echo name attrs contents IH).
Qed.

Lemma trim_leaves_id el : leaves_trimmed el = true → trim_leaves el = el.
Proof.
  unfold leaves_trimmed.
  induction el as [cls s|name attrs contents IH] using node_ind;
    cbn [trim_leaves strings].
  - simpl. destruct (extractable (cls, s)); [|done]. unfold trimmed. simpl.
    rewrite andb_true_r, andb_true_iff, !bool_decide_eq_true.
    by intros [-> ->].
  - intros H. f_equal. induction IH as [|c cs Hc _ IHcs]; [done|].
    rewrite fmap_cons in H. cbn [mjoin list_join] in H.
    rewrite forallb_app, andb_true_iff in H. destruct H as [H1 H2].
    rewrite fmap_cons. by rewrite Hc, IHcs.
Qed.

Lemma skeleton_trim_leaves el : skeleton (trim_leaves el) = skeleton el.
Proof.
  induction el as [cls s|name attrs contents IH] using node_ind;
    cbn [trim_leaves skeleton].
  - by destruct (extractable _).
  - f_equal. induction IH as [|c cs Hc _ IHcs]; [done|].
    rewrite !fmap_cons. by rewrite Hc, IHcs.
Qed.

Lemma fill_length V idx l : length (fill V idx l).1 = length l.
Proof.
  revert idx. induction l as [|x l IH]; intros idx; simpl; [done|].
  destruct (extractable x && _).
  - specialize (IH (S idx)). destruct (fill V (S idx) l). simpl in *. lia.
  - specialize (IH idx). destruct (fill V idx l). simpl in *. lia.
Qed.

Lemma leaf_rank_cons x l j :
  leaf_rank (x :: l) (S j)
  = ((if extractable x then 1 else 0) + leaf_rank l j)%nat.
Proof. unfold leaf_rank. simpl. by destruct (extractable x). Qed.

(** The string at position [j] after the substitution: the value whose
    index is the rank of the leaf, when there is one. *)
Lemma fill_lookup V l : ∀ idx j x,
  l !! j = Some x →
  (fill V idx l).1 !! j
  = Some (if extractable x && (idx + leaf_rank l j <? length V)%nat
          then (PlainString, nth (idx + leaf_rank l j) V "")
          else x).
Proof.
  induction l as [|x0 l IH]; intros idx j x Hj; [done|].
  destruct j as [|j]; simpl in Hj.
  - injection Hj as ->. unfold leaf_rank. simpl. rewrite Nat.add_0_r.
    destruct (extractable x && _).
    + by destruct (fill V (S idx) l).
    + by destruct (fill V idx l).
  - rewrite leaf_rank_cons. simpl.
    destruct (extractable x0) eqn:E0; simpl.
    + destruct (idx <? length V)%nat eqn:Hlt.
      * specialize (IH (S idx) j x Hj). destruct (fill V (S idx) l).
        simpl in *. rewrite IH.
        by replace (idx + S (leaf_rank l j))%nat
          with (S (idx + leaf_rank l j)) by lia.
      * specialize (IH idx j x Hj). destruct (fill V idx l).
        simpl in *. rewrite IH. apply Nat.ltb_ge in Hlt.
        assert ((idx + leaf_rank l j <? length V)%nat = false) as ->
          by (apply Nat.ltb_ge; lia).
        assert ((idx + S (leaf_rank l j) <? length V)%nat = false) as ->
          by (apply Nat.ltb_ge; lia).
        by rewrite !andb_false_r.
    + specialize (IH idx j x Hj). destruct (fill V idx l). simpl in *.
      by rewrite IH.
Qed.

Lemma find_existsb el :
  match find el with Some _ => true | None => false end
  = existsb is_tag (descendants el).
Proof.
  unfold find. induction (descendants el) as [|x l IH]; [done|].
  simpl. by destruct (is_tag x).
Qed.

(** C8.  [is_html] is false for the empty and the absent text; it is true
    exactly when the text contains both [<] and [>] and parses into at least
    one element.  So [is_html("<p>hi</p>")] is true as the text parses to an
    element, and [is_html("a < b and b > c")] is false as its stray angle
    brackets parse to none. *)
Theorem is_html_classifies (parser : string → option (list node)) :
  is_html parser None = false
  ∧ is_html parser (Some "") = false
  ∧ (∀ text, is_html parser (Some text) = true
       ↔ Py.contains "<" text = true ∧ Py.contains ">" text = true
         ∧ parses_to_element parser text = true)
  ∧ (parses_to_element parser "<p>hi</p>" = true
       → is_html parser (Some "<p>hi</p>") = true)
  ∧ (parses_to_element parser "a < b and b > c" = false
       → is_html parser (Some "a < b and b > c") = false).
Proof.
  assert (Hiff : ∀ text, is_html parser (Some text) = true
       ↔ Py.contains "<" text = true ∧ Py.contains ">" text = true
         ∧ parses_to_element parser text = true).
  { intros text. unfold is_html, parses_to_element, has_element.
    destruct text as [|c text]; [simpl; intuition discriminate|].
    cbn [Py.truthy negb].
    destruct (Py.contains "<" _); [|intuition discriminate].
    destruct (Py.contains ">" _); [|intuition discriminate].
    cbn [andb]. destruct (parser _) as [contents|]; [|intuition discriminate].
    rewrite <- find_existsb. destruct (find _); intuition discriminate. }
  split_and!; [done|done|done|..].
  - intros H. apply Hiff. by split_and!.
  - intros H. apply not_true_is_false. intros G. apply Hiff in G.
    destruct G as (_ & _ & G). congruence.
Qed.

Lemma is_html_classifies_witness :
  is_html parser_stub (Some "<p>hi</p>") = true
  ∧ is_html parser_stub (Some "a < b and b > c") = false.
Proof.
  destruct (is_html_classifies parser_stub) as (_ & _ & _ & H1 & H2).
  split; [apply H1; reflexivity | apply H2; reflexivity].
Defined.

(** C1, as stated, fails: in [<p>Hello <b>world</b></p>] the leaf
    ["Hello "] is extracted as ["Hello"], and echoing the values back puts
    the trimmed text in its place. *)
Lemma round_trip_not_identity :
  let soup := BeautifulSoup
    [Tag "p" [] [NavigableString PlainString "Hello ";
                 Tag "b" [] [NavigableString PlainString "world"]]] in
  text <$> extract_text_nodes_soup soup = ["Hello"; "world"]
  ∧ rebuild_soup soup (text <$> extract_text_nodes_soup soup)
    = BeautifulSoup
        [Tag "p" [] [NavigableString PlainString "Hello";
                     Tag "b" [] [NavigableString PlainString "world"]]]
  ∧ rebuild_soup soup (text <$> extract_text_nodes_soup soup) ≠ soup.
Proof. split_and!; [by vm_compute|by vm_compute|by vm_compute]. Qed.

(** C1, amended.  Reconstructing a document with the unmodified values of
    its extraction keeps the markup and replaces every text leaf by a plain
    string holding its trimmed text; the round trip is the identity when
    every text leaf is a plain string without surrounding white space. *)
Theorem round_trip_trims_leaves (parser : string → option (list node))
    (to_str : node → string) (html : string) (contents : list node) :
  parser html = Some contents →
  let soup := BeautifulSoup contents in
  let values := text <$> extract_text_nodes_soup soup in
  extract_text_nodes parser html = Some (extract_text_nodes_soup soup)
  ∧ rebuild_html_from_nodes parser to_str html values
    = Some (to_str (rebuild_soup soup values))
  ∧ rebuild_soup soup values = trim_leaves soup
  ∧ skeleton (rebuild_soup soup values) = skeleton soup
  ∧ (leaves_trimmed soup = true → rebuild_soup soup values = soup).
Proof.
  intros Hparse soup values.
  assert (Hecho : rebuild_soup soup values = trim_leaves soup).
  { unfold rebuild_soup, values, extract_text_nodes_soup.
    rewrite recurse_values by done.
    pose proof (recurse_replace_echo soup eq_refl [] []) as H.
    rewrite app_nil_r in H. simpl app in H. simpl length in H.
    by rewrite H. }
  unfold extract_text_nodes, rebuild_html_from_nodes. rewrite Hparse.
  split_and!; [done|done|done|..].
  - rewrite Hecho. apply skeleton_trim_leaves.
  - intros H. rewrite Hecho. by apply trim_leaves_id.
Qed.

Lemma round_trip_trims_leaves_witness :
  let soup := BeautifulSoup [Tag "p" [] [NavigableString PlainString "hi"]] in
  rebuild_soup soup (text <$> extract_text_nodes_soup soup) = soup.
Proof.
  intros soup.
  destruct (round_trip_trims_leaves parser_stub (λ _, "") "<p>hi</p>"
              [Tag "p" [] [NavigableString PlainString "hi"]] eq_refl)
    as (_ & _ & _ & _ & H).
  apply H. reflexivity.
Defined.

(** C6.  With fewer values than text leaves, reconstruction keeps the
    markup, puts the [i]-th value in place of the [i]-th text leaf for every
    [i] below [len(V)], and leaves every later text leaf, and every blank
    string, as it was.  The function is total: no case raises. *)
Theorem rebuild_short_list (contents : list node) (V : list string) :
  let soup := BeautifulSoup contents in
  let out := rebuild_soup soup V in
  (length V < length (extract_text_nodes_soup soup))%nat →
  skeleton out = skeleton soup
  ∧ length (strings out) = length (strings soup)
  ∧ length (List.filter extractable (strings soup))
    = length (extract_text_nodes_soup soup)
  ∧ (∀ j x v, strings soup !! j = Some x → extractable x = true →
       V !! leaf_rank (strings soup) j = Some v →
       strings out !! j = Some (PlainString, v))
  ∧ (∀ j x, strings soup !! j = Some x →
       (length V ≤ leaf_rank (strings soup) j)%nat →
       strings out !! j = Some x)
  ∧ (∀ j x, strings soup !! j = Some x → extractable x = false →
       strings out !! j = Some x).
Proof.
  intros soup out _.
  destruct (recurse_replace_fill V soup 0%nat eq_refl) as (H1 & _ & H3).
  fold (rebuild_soup soup V) in H1, H3. fold out in H1, H3.
  split_and!; [done|by rewrite H1, fill_length|..].
  - unfold extract_text_nodes_soup.
    rewrite <- (length_fmap text), (recurse_values soup "" eq_refl).
    unfold leaf_values. by rewrite length_fmap.
  - intros j x v Hj Hx Hv. rewrite H1, (fill_lookup V _ 0 j x Hj).
    cbn [Nat.add]. rewrite Hx. apply lookup_lt_Some in Hv as Hlt.
    apply Nat.ltb_lt in Hlt. rewrite Hlt. cbn [andb].
    by rewrite (nth_lookup_Some _ _ _ _ Hv).
  - intros j x Hj Hge. rewrite H1, (fill_lookup V _ 0 j x Hj).
    cbn [Nat.add]. apply Nat.ltb_ge in Hge. by rewrite Hge, andb_false_r.
  - intros j x Hj Hx. rewrite H1, (fill_lookup V _ 0 j x Hj).
    by rewrite Hx.
Qed.

Lemma rebuild_short_list_witness :
  rebuild_soup
    (BeautifulSoup
       [Tag "p" [] [NavigableString PlainString "Hello ";
                    Tag "b" [] [NavigableString PlainString "world"]]])
    ["Hallo"]
  = BeautifulSoup
      [Tag "p" [] [NavigableString PlainString "Hallo";
                   Tag "b" [] [NavigableString PlainString "world"]]]
  ∧ strings
      (rebuild_soup
         (BeautifulSoup
            [Tag "p" [] [NavigableString PlainString "Hello ";
                         Tag "b" [] [NavigableString PlainString "world"]]])
         ["Hallo"]) !! 1%nat
    = Some (PlainString, "world").
Proof.
  split; [reflexivity|].
  assert (Hlen : (length ["Hallo"] < length (extract_text_nodes_soup
    (BeautifulSoup
       [Tag "p" [] [NavigableString PlainString "Hello ";
                    Tag "b" [] [NavigableString PlainString "world"]]])))%nat)
    by (vm_compute; lia).
  destruct (rebuild_short_list _ _ Hlen) as (_ & _ & _ & _ & H & _).
  apply H; [reflexivity|vm_compute; lia].
Defined.

(** ** The translation client *)

Section ClientFacts.
Context {Net : Type} (post : request → Net → reply * Net).

(** One attempt makes one post, never raises, and returns a list exactly
    when the reply is a 200 that decodes. *)
Lemma attempt_once_spec req n :
  ∃ evs,
    attempt_once Net post req n
    = (Ok (option_map (λ data : list item, first_text <$> data)
             (success_data (post req n).1)),
       (post req n).2, evs)
    ∧ replies evs = [(post req n).1].
Proof.
  unfold attempt_once, try_except, requests_post, mbind, M_bind, bind.
  destruct (post req n) as [r n']. cbn [fst snd].
  destruct r as [status body_text json|e]; cbn.
  - destruct (status =? 200) eqn:E; cbn.
    + destruct json as [data|]; cbn; eauto.
    + destruct json; eauto.
  - eauto.
Qed.

Lemma failed_no_data r : failed r = true → success_data r = None.
Proof.
  destruct r as [status b [d|]|e]; simpl; try done.
  by destruct (status =? 200).
Qed.

(** What a run of the retry loop is: a row of attempts without data,
    then either an attempt with data, whose items are mapped, or the end
    of the budget and a list of empty strings. *)
Lemma attempts_spec req texts retry fuel : ∀ attempt n,
  (Z.to_nat (retry - attempt) ≤ fuel)%nat →
  ∃ out n' evs,
    attempts Net post fuel req texts retry attempt n = (Ok out, n', evs)
    ∧ ((Forall (λ r, success_data r = None) (replies evs)
        ∧ length (replies evs) = Z.to_nat (retry - attempt)
        ∧ out = replicate (length texts) "")
       ∨ (∃ rs r data,
            replies evs = rs ++ [r]
            ∧ Forall (λ r, success_data r = None) rs
            ∧ success_data r = Some data
            ∧ (length rs < Z.to_nat (retry - attempt))%nat
            ∧ out = first_text <$> data)).
Proof.
  induction fuel as [|fuel IH]; intros attempt n Hfuel.
  - exists (replicate (length texts) ""), n, []. simpl.
    assert ((attempt <? retry) = false) as -> by lia.
    split; [done|]. left. split_and!; [done|simpl; lia|done].
  - cbn [attempts]. destruct (attempt <? retry) eqn:Hlt.
    2:{ exists (replicate (length texts) ""), n, [].
        split; [done|]. left. split_and!; [done|simpl; lia|done]. }
    destruct (attempt_once_spec req n) as (evs1 & Hrun & Hrep).
    unfold mbind, M_bind, bind. rewrite Hrun.
    destruct (success_data (post req n).1) as [data|] eqn:Hdata; cbn.
    + eexists _, _, _. split; [done|]. right.
      exists [], (post req n).1, data.
      rewrite app_nil_r, Hrep. split_and!; [done|done|done|simpl; lia|done].
    + destruct (IH (attempt + 1) (post req n).2) as (out & n' & evs & H & Hcase);
        [lia|].
      rewrite H. eexists _, _, _. split; [done|].
      unfold replies in *. rewrite omap_app, Hrep. cbn.
      destruct Hcase as [(Hall & Hlen & Hout)|(rs & r & d & Hrs & Hall & Hr & Hlen & Hout)].
      * left. split_and!; [by constructor|simpl; lia|done].
      * right. exists ((post req n).1 :: rs), r, d. rewrite Hrs.
        split_and!; [done|by constructor|done|simpl; lia|done].
Qed.

Lemma translate_batch_nonempty self texts lang retry timeout :
  texts ≠ [] →
  ∃ req, json_body req = texts
    ∧ translate_batch Net post self texts lang retry timeout
      = attempts Net post (Z.to_nat retry) req texts retry 0.
Proof.
  intros Hne. destruct texts as [|t ts]; [done|].
  eexists. split; [|reflexivity]. done.
Qed.

(** The retry loop of [translate_batch] has fuel for its whole budget: the
    call returns a list, whatever the network does. *)
Lemma translate_batch_returns self texts lang retry timeout n :
  ∃ out n' evs,
    translate_batch Net post self texts lang retry timeout n = (Ok out, n', evs).
Proof.
  destruct texts as [|t ts]; [by eexists _, _, _|].
  destruct (translate_batch_nonempty self (t :: ts) lang retry timeout)
    as (req & _ & ->); [done|].
  destruct (attempts_spec req (t :: ts) retry (Z.to_nat retry) 0 n)
    as (out & n' & evs & H & _); [lia|]. eauto.
Qed.

Lemma attempts_replies_failed req texts retry :
  (∀ req n, failed (post req n).1 = true) →
  ∀ fuel attempt n,
    Forall (λ r, failed r = true)
      (replies (attempts Net post fuel req texts retry attempt n).2).
Proof.
  intros Hfail. induction fuel as [|fuel IH]; intros attempt n.
  - cbn [attempts]. by destruct (attempt <? retry).
  - cbn [attempts]. destruct (attempt <? retry); [|done].
    destruct (attempt_once_spec req n) as (evs1 & Hrun & Hrep).
    unfold mbind, M_bind, bind. rewrite Hrun.
    rewrite (failed_no_data _ (Hfail req n)). cbn.
    specialize (IH (attempt + 1) (post req n).2).
    destruct (attempts _ _ _ _ _ _ _ _) as [[r n'] evs]. cbn [snd] in IH |- *.
    unfold replies in *. rewrite omap_app, Hrep. cbn.
    constructor; [apply Hfail|done].
Qed.

(** C4.  For a non-empty list, when every attempt of the call gets a
    transport exception or a status other than 200, [translate_batch]
    posts exactly [retry] times (three times by default), does not raise,
    and returns [len(texts)] empty strings.  The condition is on the
    replies the call received, whatever the network does afterwards; on a
    network that fails every request, every call meets it. *)
Theorem translate_batch_exhausts self texts lang retry timeout n :
  let run := translate_batch Net post self texts lang retry timeout n in
  texts ≠ [] →
  (Forall (λ r, failed r = true) (replies run.2) →
     run.1.1 = Ok (replicate (length texts) "")
     ∧ length (replies run.2) = Z.to_nat retry
     ∧ (retry = default_retry → length (replies run.2) = 3%nat))
  ∧ ((∀ req n, failed (post req n).1 = true) →
     Forall (λ r, failed r = true) (replies run.2)).
Proof.
  intros run Hne. subst run.
  destruct (translate_batch_nonempty self texts lang retry timeout Hne)
    as (req & _ & ->).
  split.
  - intros Hall.
    destruct (attempts_spec req texts retry (Z.to_nat retry) 0 n)
      as (out & n' & evs & Hrun & Hcase); [lia|].
    rewrite Hrun in Hall |- *. cbn [fst snd] in Hall |- *.
    destruct Hcase as [(_ & Hlen & ->)|(rs & r & d & Hrs & _ & Hr & _)].
    + rewrite Z.sub_0_r in Hlen. split_and!; [done|done|].
      intros ->. by rewrite Hlen.
    + rewrite Hrs in Hall. apply Forall_app in Hall as [_ Hlast].
      apply Forall_cons in Hlast as [Hlast _].
      rewrite (failed_no_data _ Hlast) in Hr. done.
  - intros Hfail. by apply attempts_replies_failed.
Qed.

(** C5, amended.  [translate_batch([])] is [[]] without any network call.
    An attempt that gets a 200 response is the last one, and the result is
    the list of the first translations of the items of the response, an
    empty string standing for an item without translation; when the
    response has one item for each text, the result has the length of
    [texts] and its [i]-th string belongs to the [i]-th text. *)
Theorem translate_batch_maps_response self texts lang retry timeout n :
  (texts = [] →
     translate_batch Net post self texts lang retry timeout n = (Ok [], n, []))
  ∧ (∀ i status body_text data,
       replies (translate_batch Net post self texts lang retry timeout n).2 !! i
         = Some (Response status body_text (Some data)) →
       status = 200 →
       S i = length (replies
               (translate_batch Net post self texts lang retry timeout n).2)
       ∧ (translate_batch Net post self texts lang retry timeout n).1.1
         = Ok (first_text <$> data)
       ∧ (length data = length texts →
            length (first_text <$> data) = length texts
            ∧ ∀ j it, data !! j = Some it →
                (first_text <$> data) !! j = Some (first_text it)))
  ∧ (∀ it t ts s, translations it = Some (t :: ts) → tr_text t = Some s →
       first_text it = s)
  ∧ (∀ it, translations it = Some [] ∨ translations it = None →
       first_text it = "").
Proof.
  split_and!.
  - by intros ->.
  - intros i status body_text data Hi ->.
    destruct texts as [|t ts]; [done|].
    destruct (translate_batch_nonempty self (t :: ts) lang retry timeout)
      as (req & _ & Heq); [done|].
    rewrite Heq in Hi |- *.
    destruct (attempts_spec req (t :: ts) retry (Z.to_nat retry) 0 n)
      as (out & n' & evs & Hrun & Hcase); [lia|].
    rewrite Hrun in Hi |- *. cbn [fst snd] in Hi |- *.
    destruct Hcase as [(Hall & _ & _)|(rs & r & d & Hrs & Hall & Hr & _ & ->)].
    + rewrite Forall_lookup in Hall. by specialize (Hall _ _ Hi).
    + rewrite Hrs in Hi |- *. rewrite length_app. cbn [length].
      destruct (decide (i < length rs)%nat) as [Hlt|Hge].
      { rewrite lookup_app_l in Hi by done.
        rewrite Forall_lookup in Hall. by specialize (Hall _ _ Hi). }
      apply lookup_lt_Some in Hi as Hlen. rewrite length_app in Hlen.
      cbn [length] in Hlen. assert (i = length rs) as -> by lia.
      rewrite list_lookup_middle in Hi by done. injection Hi as ->.
      simpl in Hr. injection Hr as ->.
      split_and!; [lia|done|].
      intros Hlen'. split; [by rewrite length_fmap|].
      intros j it Hj. by rewrite list_lookup_fmap, Hj.
  - intros it t ts s H1 H2. unfold first_text. by rewrite H1, H2.
  - intros it [H|H]; unfold first_text; by rewrite H.
Qed.

End ClientFacts.

Lemma translate_batch_exhausts_witness :
  let run := translate_batch (list reply) scripted_post translator_example
               ["Hello"; "World"] None default_retry default_timeout
               [Response 503 "Service Unavailable" None;
                TransportError (Exception "ReadTimeout");
                Response 429 "Too Many Requests" None;
                Response 200 ""
                  (Some [ {| translations := Some [ {| tr_text := Some "Hallo" |} ] |};
                          {| translations := Some [ {| tr_text := Some "Welt" |} ] |} ])] in
  run.1.1 = Ok [""; ""] ∧ length (replies run.2) = 3%nat.
Proof.
  intros run.
  destruct (proj1 (translate_batch_exhausts scripted_post translator_example
                     ["Hello"; "World"] None default_retry default_timeout
                     [Response 503 "Service Unavailable" None;
                      TransportError (Exception "ReadTimeout");
                      Response 429 "Too Many Requests" None;
                      Response 200 ""
                        (Some [ {| translations := Some [ {| tr_text := Some "Hallo" |} ] |};
                                {| translations := Some [ {| tr_text := Some "Welt" |} ] |} ])]
                     ltac:(done)))
    as (Hres & _ & Hlen).
  { vm_compute. repeat constructor. }
  split; [exact Hres|by apply Hlen].
Defined.

(** C5, as stated, fails: when the service answers 200 with fewer items
    than texts, here none, the result is shorter than [texts]. *)
Lemma translate_batch_short_response :
  (translate_batch (list reply) scripted_post translator_example
     ["Hello"; "World"] None default_retry default_timeout
     [Response 200 "[]" (Some [])]).1.1 = Ok []
  ∧ length (@nil string) ≠ length ["Hello"; "World"].
Proof. split; [by vm_compute|done]. Qed.

Lemma translate_batch_maps_response_witness :
  (translate_batch (list reply) scripted_post translator_example
     ["Hello"; "World"] None default_retry default_timeout
     [Response 503 "" None;
      Response 200 ""
        (Some [ {| translations := Some [ {| tr_text := Some "Hallo" |} ] |};
                {| translations := Some [] |} ])]).1.1
  = Ok ["Hallo"; ""].
Proof.
  destruct (translate_batch_maps_response scripted_post translator_example
              ["Hello"; "World"] None default_retry default_timeout
              [Response 503 "" None;
               Response 200 ""
                 (Some [ {| translations := Some [ {| tr_text := Some "Hallo" |} ] |};
                         {| translations := Some [] |} ])])
    as (_ & H & _).
  destruct (H 1%nat 200 "" _ eq_refl eq_refl) as (_ & Hres & _).
  exact Hres.
Defined.

(** ** The resumable batch updater *)

Lemma nonblank_test tr :
  Py.truthy tr && Py.truthy (Py.strip tr) = nonblank tr.
Proof.
  unfold nonblank. destruct tr as [|c tr]; [done|]. cbn [Py.truthy andb].
  by destruct (Py.strip (String c tr)).
Qed.

Lemma find_none {A} (f : A → bool) (l : list A) :
  Forall (λ x, f x = false) l → List.find f l = None.
Proof. induction 1 as [|x l Hx _ IH]; [done|]. simpl. by rewrite Hx. Qed.

Lemma bind_prefix {S A B} (m : M S A) (k : A → M S B) s :
  ∃ more, ((m ≫= k) s).2 = (m s).2 ++ more.
Proof.
  unfold mbind, M_bind, bind.
  destruct (m s) as [[[a|e|] s1] ev1]; cbn [snd].
  - destruct (k a s1) as [[r s2] ev2]. by exists ev2.
  - exists []. by rewrite app_nil_r.
  - exists []. by rewrite app_nil_r.
Qed.

Section UpdaterFacts.
Context {Store T : Type}.
Context (execute : stmt → Store → (exn + result) * Store).
Context (commit : Store → (exn + unit) * Store).
Context (conn_database : option string).
Context (parser : string → option (list node)).
Context (translator : translator T).

Local Abbreviation W := (Store * T)%type.

Local Ltac run := unfold mbind, M_bind, bind, mret, M_ret, ret, print, emit,
  raise, try_except, call, cursor_execute, conn_commit in *.

Lemma translate_row_returns lang txt (w : W) :
  ∃ tr t evs,
    translate_row parser translator lang txt w = (Ok tr, (w.1, t), evs)
    ∧ texts_translated evs = [txt]
    ∧ statements evs = [] ∧ rows_settled evs = [] ∧ fetches evs = []
    ∧ pages evs = [].
Proof.
  unfold translate_row. run. destruct w as [st t0]. cbn [fst snd].
  destruct (is_html parser (Some txt)).
  - destruct (tr_translate_html _ _ _ _) as [[e|tr] t]; cbn; eauto 10.
  - destruct (tr_translate_batch _ _ _ _) as [[e|[|tr l]] t]; cbn; eauto 10.
Qed.

Lemma translate_rows_returns lang texts : ∀ w : W,
  ∃ trs t evs,
    translate_rows parser translator lang texts w = (Ok trs, (w.1, t), evs)
    ∧ length trs = length texts
    ∧ texts_translated evs = texts
    ∧ statements evs = [] ∧ rows_settled evs = [] ∧ fetches evs = []
    ∧ pages evs = [].
Proof.
  induction texts as [|txt rest IH]; intros w.
  - exists [], w.2, []. by destruct w.
  - destruct (translate_row_returns lang txt w)
      as (tr & t1 & ev1 & H1 & Ht1 & Hs1 & Hr1 & Ho1 & Hp1).
    destruct (IH (w.1, t1)) as (trs & t2 & ev2 & H2 & Hlen & Ht2 & Hs2 & Hr2 & Ho2 & Hp2).
    exists (tr :: trs), t2, (ev1 ++ ev2 ++ []).
    cbn [translate_rows]. run. rewrite H1, H2. cbn [fst snd].
    unfold texts_translated, statements, rows_settled, fetches, pages in *.
    rewrite !omap_app, Ht1, Ht2, Hs1, Hs2, Hr1, Hr2, Ho1, Ho2, Hp1, Hp2.
    cbn. rewrite ?app_nil_r. split_and!; [done|lia|done..].
Qed.

Lemma translate_page_returns lang texts (w : W) :
  ∃ trs t evs,
    translate_page parser translator lang texts w = (Ok trs, (w.1, t), evs)
    ∧ length trs = length texts
    ∧ texts_translated evs = texts
    ∧ statements evs = [] ∧ rows_settled evs = [] ∧ fetches evs = []
    ∧ pages evs = [].
Proof.
  destruct (translate_rows_returns lang texts w) as (trs & t & evs & H & Hrest).
  exists trs, t, evs. unfold translate_page, try_except. by rewrite H.
Qed.

(** C10.  When the call made for a row raises, [translate_and_update]
    catches the exception in the row: the translation of the row is the
    empty string, so that the row is counted as failed and nothing is
    written for it, and the rows after it are translated as usual.  No
    row and no page of translations raises. *)
Theorem translation_error_is_caught lang txt (w : W) :
  (∀ e t, call_raises parser translator lang txt w.2 e t →
     translate_row parser translator lang txt w
     = (Ok "", (w.1, t),
        [call_event parser txt; EvPrint (MsgTranslateError e)]))
  ∧ (∃ tr t evs,
       translate_row parser translator lang txt w = (Ok tr, (w.1, t), evs))
  ∧ (∀ rest tr w1 ev1,
       translate_row parser translator lang txt w = (Ok tr, w1, ev1) →
       ∃ trs t2 ev2,
         translate_rows parser translator lang rest w1 = (Ok trs, (w1.1, t2), ev2)
         ∧ translate_page parser translator lang (txt :: rest) w
           = (Ok (tr :: trs), (w1.1, t2), ev1 ++ ev2 ++ []))
  ∧ (∀ texts (w : W), ∃ trs t evs,
       translate_page parser translator lang texts w = (Ok trs, (w.1, t), evs)
       ∧ length trs = length texts)
  ∧ (∀ table col target_col pk rid l (w : W),
       write_row execute table col target_col pk (rid, txt, "") l w
       = (Ok (incr_fail l), w, [EvPrint (MsgSkipRow rid)])).
Proof.
  split_and!.
  - intros e t. unfold call_raises, call_event, translate_row. run.
    destruct w as [st t0]. cbn [fst snd].
    destruct (is_html parser (Some txt)); intros H; cbn [fst snd] in *;
      by rewrite H.
  - destruct (translate_row_returns lang txt w) as (tr & t & evs & H & _).
    eauto.
  - intros rest tr w1 ev1 H1.
    destruct (translate_rows_returns lang rest w1) as (trs & t2 & ev2 & H2 & _).
    exists trs, t2, ev2. split; [done|].
    unfold translate_page, try_except. cbn [translate_rows]. run.
    by rewrite H1, H2.
  - intros texts w0.
    destruct (translate_page_returns lang texts w0) as (trs & t & evs & H & Hlen & _).
    eauto 10.
  - intros. by destruct w0.
Qed.

Lemma write_row_spec table col target_col pk rid src tr l (w : W) :
  write_row execute table col target_col pk (rid, src, tr) l w
  = if nonblank tr then
      let s := UpdateRow table target_col col pk tr tr rid in
      match execute s w.1 with
      | (inr r, st) => (Ok (incr_ok l), (st, w.2), [EvSql s (inr r)])
      | (inl e, st) =>
          (Ok (incr_fail l), (st, w.2),
           [EvSql s (inl e); EvPrint (MsgUpdateFailed rid e)])
      end
    else (Ok (incr_fail l), w, [EvPrint (MsgSkipRow rid)]).
Proof.
  unfold write_row. rewrite nonblank_test. destruct (nonblank tr).
  - run. destruct (execute _ _) as [[e|r] st]; done.
  - by destruct w.
Qed.

Lemma write_back_spec table col target_col pk rows : ∀ l (w : W),
  ∃ l' st evs,
    write_back execute table col target_col pk rows l w = (Ok l', (st, w.2), evs)
    ∧ statements evs
      = update_of table col target_col pk <$> List.filter (λ r, nonblank r.2) rows
    ∧ rows_settled evs = (λ r, r.1.1) <$> rows
    ∧ total l' = total l
    ∧ ok l' + fail l' = ok l + fail l + Z.of_nat (length rows)
    ∧ texts_translated evs = [] ∧ fetches evs = [] ∧ pages evs = [].
Proof.
  induction rows as [|[[rid src] tr] rows IH]; intros l w.
  - exists l, w.1, []. destruct w. split_and!; try done. simpl; lia.
  - cbn [write_back]. unfold mbind, M_bind, bind.
    rewrite write_row_spec. cbn [List.filter snd].
    destruct (nonblank tr).
    + cbn zeta. destruct (execute _ w.1) as [[e|r] st1].
      * destruct (IH (incr_fail l) (st1, w.2))
          as (l' & st & evs & H & Hs & Hr & Ht & Hc & Hx & Ho & Hp).
        rewrite H. eexists _, _, _. split; [done|].
        unfold statements, rows_settled, texts_translated, fetches, pages in *.
        rewrite !omap_app, Hs, Hr, Hx, Ho, Hp.
        split_and!; try done. rewrite Hc. cbn [length incr_ok incr_fail ok fail]. lia.
      * destruct (IH (incr_ok l) (st1, w.2))
          as (l' & st & evs & H & Hs & Hr & Ht & Hc & Hx & Ho & Hp).
        rewrite H. eexists _, _, _. split; [done|].
        unfold statements, rows_settled, texts_translated, fetches, pages in *.
        rewrite !omap_app, Hs, Hr, Hx, Ho, Hp.
        split_and!; try done. rewrite Hc. cbn [length incr_ok incr_fail ok fail]. lia.
    + destruct (IH (incr_fail l) w)
        as (l' & st & evs & H & Hs & Hr & Ht & Hc & Hx & Ho & Hp).
      rewrite H. eexists _, _, _. split; [done|].
      unfold statements, rows_settled, texts_translated, fetches, pages in *.
      rewrite !omap_app, Hs, Hr, Hx, Ho, Hp.
      split_and!; try done. rewrite Hc. cbn [length incr_ok incr_fail ok fail]. lia.
Qed.


Lemma zip3_ids {A B C} (la : list A) : ∀ (lb : list B) (lc : list C),
  length lb = length la → length lc = length la →
  (λ r, r.1.1) <$> zip3 la lb lc = la.
Proof.
  induction la as [|a la IH]; intros [|b lb] [|c lc] Hb Hc; try done.
  simpl in *. f_equal. apply IH; lia.
Qed.

(** A page gives its texts to the translator in the order of the rows,
    then settles the rows in that order, and does not run out of fuel. *)
Lemma process_page_spec table col target_col pk lang rows l (w : W) :
  ∃ res w' evs,
    process_page execute commit parser translator
      table col target_col pk lang rows l w = (res, w', evs)
    ∧ res ≠ OutOfFuel
    ∧ texts_translated evs = page_texts rows
    ∧ rows_settled evs = page_ids rows
    ∧ fetches evs = [] ∧ pages evs = [].
Proof.
  unfold process_page, page_texts, page_ids.
  destruct (translate_page_returns lang ((λ r, default "" r.2) <$> rows) w)
    as (trs & t & ev1 & H1 & Hlen & Ht1 & Hs1 & Hr1 & Ho1 & Hp1).
  destruct (write_back_spec table col target_col pk
              (zip3 (fst <$> rows) ((λ r, default "" r.2) <$> rows) trs)
              l (w.1, t))
    as (l' & st & ev2 & H2 & Hs2 & Hr2 & _ & _ & Ht2 & Ho2 & Hp2).
  rewrite zip3_ids in Hr2 by (by rewrite ?Hlen, !length_fmap).
  unfold mbind at 1, M_bind at 1, bind at 1. rewrite H1.
  unfold mbind at 1, M_bind at 1, bind at 1. rewrite H2.
  run. cbn [fst snd].
  unfold texts_translated, rows_settled, fetches, pages in *.
  destruct (commit st) as [[e|u] st']; eexists _, _, _; (split; [done|]);
    rewrite !omap_app, Ht1, Ht2, Hr1, Hr2, Ho1, Ho2, Hp1, Hp2; cbn;
    rewrite ?app_nil_r; done.
Qed.

(** One turn of the loop [while offset < total]. *)
Lemma page_loop_step table col target_col pk lang batch_size total fuel
    offset l (w : W) :
  page_loop execute commit parser translator (S fuel)
    table col target_col pk lang batch_size total offset l w
  = if offset <? total then
      let s := SelectPending table pk col target_col batch_size offset in
      match execute s w.1 with
      | (inl e, st) => (Raise e, (st, w.2), [EvSql s (inl e)])
      | (inr (RRows []), st) => (Ok l, (st, w.2), [EvSql s (inr (RRows []))])
      | (inr (RRows rows), st) =>
          match process_page execute commit parser translator
                  table col target_col pk lang rows l (st, w.2) with
          | (Ok l', w1, ev1) =>
              let '(r2, w2, ev2) :=
                page_loop execute commit parser translator fuel
                  table col target_col pk lang batch_size total
                  (offset + batch_size) l' w1 in
              (r2, w2,
               EvSql s (inr (RRows rows))
               :: ev1 ++ EvPrint (MsgProgress
                                    (Z.min (offset + batch_size) total) total)
                         :: ev2)
          | (Raise e, w1, ev1) =>
              (Raise e, w1, EvSql s (inr (RRows rows)) :: ev1)
          | (OutOfFuel, w1, ev1) =>
              (OutOfFuel, w1, EvSql s (inr (RRows rows)) :: ev1)
          end
      | (inr r, st) =>
          (Raise (Exception "TypeError"), (st, w.2), [EvSql s (inr r)])
      end
    else (Ok l, w, []).
Proof.
  cbn [page_loop]. destruct (offset <? total); [|done].
  unfold mbind at 1, M_bind at 1, bind at 1, cursor_execute. cbn zeta.
  destruct (execute _ w.1) as [[e|r] st]; [done|].
  destruct r as [cols|n|rows|]; try done.
  destruct rows as [|row rows]; [done|].
  cbn [fetch_rows]. unfold mbind at 1, M_bind at 1, bind at 1.
  cbn [ret app].
  unfold mbind at 1, M_bind at 1, bind at 1.
  destruct (process_page _ _ _ _ _ _ _ _ _ _ _ _) as [[[l'|e|] w1] ev1];
    [|done..].
  unfold mbind at 1, M_bind at 1, bind at 1, print, emit.
  destruct (page_loop _ _ _ _ _ _ _ _ _ _ _ _ _ _ _) as [[r2 w2] ev2].
  done.
Qed.

Lemma page_loop_spec table col target_col pk lang batch_size total fuel :
  ∀ offset l (w : W),
    let run := page_loop execute commit parser translator fuel
                 table col target_col pk lang batch_size total offset l w in
    fetches run.2 = fetch_plan batch_size offset (length (fetches run.2))
    ∧ Forall (λ f, f.2 < total) (fetches run.2)
    ∧ texts_translated run.2 = concat (page_texts <$> pages run.2)
    ∧ rows_settled run.2 = concat (page_ids <$> pages run.2)
    ∧ (0 < batch_size → (Z.to_nat (total - offset) ≤ fuel)%nat →
       run.1.1 ≠ OutOfFuel).
Proof.
  induction fuel as [|fuel IH]; intros offset l w run; subst run.
  { cbn [page_loop]. destruct (offset <? total) eqn:Hlt; cbn.
    - split_and!; [done..|]. lia.
    - by split_and!. }
  rewrite page_loop_step. destruct (offset <? total) eqn:Hlt; [|by split_and!].
  apply Z.ltb_lt in Hlt. cbn zeta.
  assert (Hone : ∀ r, fetches
      [EvSql (SelectPending table pk col target_col batch_size offset) r]
      = fetch_plan batch_size offset 1).
  { intros r. unfold fetch_plan. cbn. by rewrite Z.add_0_r. }
  assert (Hall1 : Forall (λ f : Z * Z, f.2 < total)
                    (fetch_plan batch_size offset 1)).
  { unfold fetch_plan. cbn. repeat constructor. simpl. lia. }
  destruct (execute _ w.1) as [[e|r] st].
  { cbn [fst snd]. rewrite Hone. by split_and!. }
  destruct r as [cols|n|rows|];
    try (cbn [fst snd]; rewrite Hone; by split_and!).
  destruct rows as [|row rows].
  { cbn [fst snd]. rewrite Hone. by split_and!. }
  destruct (process_page_spec table col target_col pk lang
              (row :: rows) l (st, w.2))
    as (res & w' & ev1 & H1 & Hres & Ht1 & Hr1 & Ho1 & Hp1).
  rewrite H1. destruct res as [l'|e|]; [|clear IH|done].
  - specialize (IH (offset + batch_size) l' w').
    destruct (page_loop _ _ _ _ _ _ _ _ _ _ _ _ _ _ _) as [[res2 w2] ev2].
    cbn [fst snd] in IH |- *.
    destruct IH as (Hf & Hall & Ht & Hr & Hterm).
    unfold texts_translated, rows_settled, fetches, pages in *.
    cbn [omap list_omap]. rewrite !omap_app. cbn [omap list_omap].
    rewrite Ht1, Hr1, Ho1, Hp1.
    cbn [app omap list_omap fmap list_fmap concat].
    rewrite Ht, Hr. split_and!; [|by constructor|done|done|].
    + unfold fetch_plan in *.
      cbn [length seq fmap list_fmap]. rewrite Z.mul_0_l, Z.add_0_r.
      f_equal. rewrite Hf at 1. rewrite <- fmap_S_seq, <- list_fmap_compose.
      apply list_fmap_ext. intros _ k _. cbn. f_equal. lia.
    + intros Hbs Hfuel. apply Hterm; [done|lia].
  - unfold texts_translated, rows_settled, fetches, pages in *.
    cbn [omap list_omap fst snd]. rewrite Ht1, Hr1, Ho1, Hp1.
    cbn. rewrite ?app_nil_r. unfold fetch_plan. cbn. rewrite Z.add_0_r.
    split_and!; try done. by repeat constructor.
Qed.

Lemma process_page_ends table col target_col pk lang rows l (w : W) :
  ∃ evs,
    (process_page execute commit parser translator
       table col target_col pk lang rows l w).2 = evs ++ [EvCommit].
Proof.
  unfold process_page.
  destruct (translate_page_returns lang
              ((λ r, default "" r.2) <$> rows) w)
    as (trs & t & ev1 & H1 & _).
  destruct (write_back_spec table col target_col pk
              (zip3 (fst <$> rows) ((λ r, default "" r.2) <$> rows) trs)
              l (w.1, t))
    as (l' & st & ev2 & H2 & _).
  unfold mbind at 1, M_bind at 1, bind at 1. rewrite H1.
  unfold mbind at 1, M_bind at 1, bind at 1. rewrite H2.
  run. cbn [fst snd]. exists (ev1 ++ ev2).
  destruct (commit st) as [[e|u] st']; cbn [snd];
    by rewrite ?app_nil_r, <- ?app_assoc.
Qed.

Lemma page_loop_progress table col target_col pk lang batch_size total fuel :
  ∀ offset l (w : W),
    let run := page_loop execute commit parser translator fuel
                 table col target_col pk lang batch_size total offset l w in
    (offset < total → (0 < fuel)%nat →
       head (fetches run.2) = Some (batch_size, offset))
    ∧ (∀ k, pages run.2 !! k = Some [] → S k = length (fetches run.2))
    ∧ (∀ l', run.1.1 = Ok l' →
         length (pages run.2) = length (fetches run.2)
         ∧ ∀ k rows, pages run.2 !! k = Some rows → rows ≠ [] →
             offset + Z.of_nat (S k) * batch_size < total →
             (S k < length (fetches run.2))%nat)
    ∧ (∀ e, run.1.1 = Raise e →
         ∃ evs ev, run.2 = evs ++ [ev]
                   ∧ (ev = EvCommit ∨ failed_fetch ev = true)).
Proof.
  induction fuel as [|fuel IH]; intros offset l w run; subst run.
  { cbn [page_loop]. destruct (offset <? total) eqn:Hlt; cbn [fst snd].
    - split_and!; [lia|done|done|done].
    - apply Z.ltb_ge in Hlt.
      split_and!; [lia|done| |done].
      intros l' _. split; [done|]. intros k rows Hk. done. }
  rewrite page_loop_step. destruct (offset <? total) eqn:Hlt.
  2:{ apply Z.ltb_ge in Hlt. cbn [fst snd].
      split_and!; [lia|done| |done].
      intros l' _. split; [done|]. intros k rows Hk. done. }
  apply Z.ltb_lt in Hlt. cbn zeta.
  set (s := SelectPending table pk col target_col batch_size offset).
  destruct (execute s w.1) as [[e|r] st].
  { cbn [fst snd]. split_and!; [done|done|done|].
    intros e' _. exists [], (EvSql s (inl e)). split; [done|]. by right. }
  destruct r as [cols|n|rows|].
  1,2,4: cbn [fst snd]; (split_and!; [done|done|done|]);
    intros e' _; eexists [], _; (split; [done|]); by right.
  destruct rows as [|row rows].
  { cbn [fst snd]. split_and!; [done| |  |done].
    - intros [|k]; [done|]. done.
    - intros l' _. split; [done|]. intros [|k] rows Hk Hne; [|done].
      cbn in Hk. by injection Hk as <-. }
  destruct (process_page_spec table col target_col pk lang (row :: rows) l (st, w.2))
    as (res & w' & ev1 & H1 & Hres & _ & _ & Ho1 & Hp1).
  destruct (process_page_ends table col target_col pk lang (row :: rows) l
              (st, w.2)) as [ev1' Hends].
  rewrite H1 in Hends |- *. cbn [snd] in Hends.
  destruct res as [l1|e|]; [|clear IH|done].
  - specialize (IH (offset + batch_size) l1 w').
    destruct (page_loop _ _ _ _ _ _ _ _ _ _ _ _ _ _ _) as [[res2 w2] ev2]
      eqn:Hrun2.
    cbn [fst snd] in IH |- *.
    destruct IH as (Hhead & Hempty & Hok & Hraise).
    assert (Hf : fetches (EvSql s (inr (RRows (row :: rows)))
                   :: ev1 ++ EvPrint (MsgProgress
                                        (Z.min (offset + batch_size) total) total)
                             :: ev2)
                 = (batch_size, offset) :: fetches ev2).
    { unfold fetches in *. cbn [omap list_omap s]. rewrite omap_app, Ho1.
      done. }
    assert (Hp : pages (EvSql s (inr (RRows (row :: rows)))
                   :: ev1 ++ EvPrint (MsgProgress
                                        (Z.min (offset + batch_size) total) total)
                             :: ev2)
                 = (row :: rows) :: pages ev2).
    { unfold pages in *. cbn [omap list_omap s]. rewrite omap_app, Hp1.
      done. }
    rewrite Hf, Hp. split_and!.
    + done.
    + intros [|k] Hk; [done|]. cbn in Hk. cbn [length]. f_equal.
      by apply Hempty.
    + intros l' Hl'. destruct (Hok l' Hl') as [Hlen Hnext].
      split; [cbn [length]; by rewrite Hlen|].
      intros [|k] rs Hk Hne Hoff.
      * assert (Hlt' : offset + batch_size < total) by lia.
        assert (Hfuel : (0 < fuel)%nat).
        { destruct fuel as [|fuel']; [|lia]. cbn [page_loop] in Hrun2.
          apply Z.ltb_lt in Hlt'. rewrite Hlt' in Hrun2.
          injection Hrun2 as <- _ _. done. }
        specialize (Hhead Hlt' Hfuel).
        destruct (fetches ev2); [done|]. cbn [length]. lia.
      * cbn in Hk. cbn [length]. apply -> Nat.succ_lt_mono.
        apply (Hnext k rs Hk Hne). lia.
    + intros e He. destruct (Hraise e He) as (evs & ev & -> & Hev).
      exists (EvSql s (inr (RRows (row :: rows)))
              :: ev1 ++ EvPrint (MsgProgress
                                   (Z.min (offset + batch_size) total) total)
                        :: evs), ev.
      split; [|done]. cbn [app]. f_equal. rewrite <- app_assoc. done.
  - cbn [fst snd]. 
    assert (Hf : fetches (EvSql s (inr (RRows (row :: rows))) :: ev1)
                 = [(batch_size, offset)]).
    { unfold fetches in *. cbn [omap list_omap s]. by rewrite Ho1. }
    assert (Hp : pages (EvSql s (inr (RRows (row :: rows))) :: ev1)
                 = [row :: rows]).
    { unfold pages in *. cbn [omap list_omap s]. by rewrite Hp1. }
    rewrite Hf, Hp. split_and!; [done| |done|].
    + intros [|k] Hk; done.
    + intros e' _. exists (EvSql s (inr (RRows (row :: rows))) :: ev1'), EvCommit.
      split; [by rewrite Hends|by left].
Qed.

(** C7.  The pages of a column are fetched with [LIMIT batch_size] at the
    offsets 0, [batch_size], [2 * batch_size], and so on: the offset
    advances by [batch_size] after every page, whatever the rows of the
    page did, every offset is below [total], and the offsets ascend
    strictly.  The texts of a page go to the translator, and its rows are
    written back or skipped, in the order of the result set.  With enough
    fuel the loop ends.  The loop does fetch: when [0 < total] the first
    page is fetched at offset 0; a page without rows is the last one
    fetched; after a page with rows, a run that ends normally has fetched
    the next page whenever the next offset is below [total]; and a run
    ends with an exception only at a fetch that failed or at a commit. *)
Theorem page_loop_order fuel table col target_col pk lang batch_size total l
    (w : W) :
  let run := page_loop execute commit parser translator fuel
               table col target_col pk lang batch_size total 0 l w in
  fetches run.2 = fetch_plan batch_size 0 (length (fetches run.2))
  ∧ (∀ k f, fetches run.2 !! k = Some f →
       f = (batch_size, Z.of_nat k * batch_size))
  ∧ Forall (λ f, f.2 < total) (fetches run.2)
  ∧ (0 < batch_size →
     ∀ i j fi fj, (i < j)%nat →
       fetches run.2 !! i = Some fi → fetches run.2 !! j = Some fj →
       fi.2 < fj.2)
  ∧ texts_translated run.2 = concat (page_texts <$> pages run.2)
  ∧ rows_settled run.2 = concat (page_ids <$> pages run.2)
  ∧ (0 < batch_size → (Z.to_nat total ≤ fuel)%nat → run.1.1 ≠ OutOfFuel)
  ∧ (0 < total → (0 < fuel)%nat →
     head (fetches run.2) = Some (batch_size, 0))
  ∧ (∀ k, pages run.2 !! k = Some [] → S k = length (fetches run.2))
  ∧ (∀ l', run.1.1 = Ok l' →
       length (pages run.2) = length (fetches run.2)
       ∧ ∀ k rows, pages run.2 !! k = Some rows → rows ≠ [] →
           Z.of_nat (S k) * batch_size < total →
           (S k < length (fetches run.2))%nat)
  ∧ (∀ e, run.1.1 = Raise e →
       ∃ evs ev, run.2 = evs ++ [ev]
                 ∧ (ev = EvCommit ∨ failed_fetch ev = true)).
Proof.
  intros run.
  destruct (page_loop_spec table col target_col pk lang batch_size total
              fuel 0 l w) as (Hf & Hall & Ht & Hr & Hterm).
  destruct (page_loop_progress table col target_col pk lang batch_size total
              fuel 0 l w) as (Hhead & Hempty & Hok & Hraise).
  fold run in Hf, Hall, Ht, Hr, Hterm, Hhead, Hempty, Hok, Hraise.
  assert (Hk : ∀ k f, fetches run.2 !! k = Some f →
               f = (batch_size, Z.of_nat k * batch_size)).
  { intros k f Hk. rewrite Hf in Hk. unfold fetch_plan in Hk.
    rewrite list_lookup_fmap in Hk.
    destruct (seq 0 _ !! k) as [k'|] eqn:Hk'; [|done].
    apply lookup_seq in Hk' as [-> _]. simpl in Hk. by injection Hk as <-. }
  split_and!; [done|done|done| |done|done| |done|done| |done].
  - intros Hbs i j fi fj Hij Hi Hj.
    rewrite (Hk _ _ Hi), (Hk _ _ Hj). simpl. nia.
  - intros Hbs Hfuel. apply Hterm; [done|]. by rewrite Z.sub_0_r.
  - intros l' Hl'. destruct (Hok l' Hl') as [Hlen Hnext].
    split; [done|]. intros k rows Hrows Hne Hoff.
    apply (Hnext k rows Hrows Hne). lia.
Qed.

Lemma detect_primary_key_spec schema table (w : W) :
  detect_primary_key execute schema table w
  = let s := SelectColumns schema table in
    match execute s w.1 with
    | (inl e, st) => (Raise e, (st, w.2), [EvSql s (inl e)])
    | (inr (RColumns cols), st) =>
        (Ok (match List.find (λ c, bool_decide (c.2 = "PRI")) cols with
             | Some c => Some c.1.1
             | None => match cols with c :: _ => Some c.1.1 | [] => None end
             end),
         (st, w.2), [EvSql s (inr (RColumns cols))])
    | (inr r, st) =>
        (Raise (Exception "TypeError"), (st, w.2), [EvSql s (inr r)])
    end.
Proof.
  unfold detect_primary_key, list_table_columns. run. cbn zeta.
  destruct (execute _ w.1) as [[e|r] st]; [done|].
  destruct r as [cols|n|rows|]; try done. cbn.
  destruct (List.find _ cols) as [[[c d] k]|]; [done|].
  by destruct cols as [|[[c d] k] cols].
Qed.

Lemma add_target_column_spec table target_col schema (w : W) :
  add_target_column_if_needed execute commit conn_database
    table target_col schema w
  = let dbname := if Py.truthy_opt schema then schema else conn_database in
    let probe := CountColumn dbname table target_col in
    let alter := AlterAddColumn table target_col in
    match execute probe w.1 with
    | (inl e, st1) => (Raise e, (st1, w.2), [EvSql probe (inl e)])
    | (inr (RCount n), st1) =>
        if 0 <? n then (Ok (), (st1, w.2), [EvSql probe (inr (RCount n))])
        else
          match execute alter st1 with
          | (inl e, st2) =>
              (Raise e, (st2, w.2),
               [EvSql probe (inr (RCount n)); EvSql alter (inl e)])
          | (inr r, st2) =>
              match commit st2 with
              | (inl e, st3) =>
                  (Raise e, (st3, w.2),
                   [EvSql probe (inr (RCount n)); EvSql alter (inr r);
                    EvCommit])
              | (inr u, st3) =>
                  (Ok (), (st3, w.2),
                   [EvSql probe (inr (RCount n)); EvSql alter (inr r);
                    EvCommit; EvPrint (MsgColumnCreated target_col table)])
              end
          end
    | (inr r, st1) =>
        (Raise (Exception "TypeError"), (st1, w.2), [EvSql probe (inr r)])
    end.
Proof.
  unfold add_target_column_if_needed. run. cbn zeta.
  destruct (execute _ w.1) as [[e|r] st1]; [done|].
  destruct r as [cols|n|rows|]; try done. cbn.
  destruct (0 <? n); [done|]. cbn.
  destruct (execute _ st1) as [[e|r] st2]; [done|]. cbn.
  by destruct (commit st2) as [[e|u] st3].
Qed.

Lemma columns_loop_first_statement fuel table pk schema lang batch_size
    col cols entry (w : W) :
  ∃ r more,
    (columns_loop execute commit conn_database parser translator
       fuel table pk schema lang batch_size (col :: cols) entry w).2
    = EvSql (CountColumn (if Py.truthy_opt schema then schema
                          else conn_database)
               table (col +:+ "_" +:+ lang)) r :: more.
Proof.
  cbn [columns_loop].
  destruct (bind_prefix
              (add_target_column_if_needed execute commit conn_database
                 table (col +:+ "_" +:+ lang) schema)
              (λ _, r ← cursor_execute execute
                          (CountPending table col (col +:+ "_" +:+ lang));
                    total ← fetch_count r;
                    print (MsgPending table col total);;
                    l ← page_loop execute commit parser translator fuel
                          table col (col +:+ "_" +:+ lang) pk lang batch_size
                          total 0 {| total := total; ok := 0; fail := 0 |};
                    columns_loop execute commit conn_database parser translator
                      fuel table pk schema lang batch_size cols
                      (<[col := l]> entry)) w) as [more Hmore].
  rewrite Hmore. rewrite add_target_column_spec. cbn zeta.
  destruct (execute _ w.1) as [[e|r] st1]; [by eexists _, _|].
  destruct r as [cs|n|rows|]; try by eexists _, _.
  destruct (0 <? n); [by eexists _, _|].
  destruct (execute _ st1) as [[e|r] st2]; [by eexists _, _|].
  destruct (commit st2) as [[e|u] st3]; by eexists _, _.
Qed.

(** C3, amended.  [detect_primary_key] takes the first column marked
    [PRI] and, when none is, the first column of the table; so it detects
    no key, [None] or an empty name, only for a table whose schema lists
    no column, or whose chosen column has an empty name.  A table of the
    selections for which no key is detected is skipped: the only statement
    issued for it is the query of its columns, the diagnostic is printed,
    the summary gets no entry for it, and the run goes on with the tables
    after it.  A table that has columns and no primary key is not skipped:
    its first column is taken as the key, and the next statement is the
    probe for the destination of its first selected column. *)
Theorem table_without_key_is_skipped fuel schema lang batch_size
    table col cols rest summary (w : W) tcols st :
  execute (SelectColumns schema table) w.1 = (inr (RColumns tcols), st) →
  let ev1 := [EvSql (SelectColumns schema table) (inr (RColumns tcols))] in
  let key := match List.find is_primary tcols with
             | Some c => Some c.1.1
             | None => head (column_names tcols)
             end in
  let run := tables_loop execute commit conn_database parser translator
               fuel schema lang batch_size ((table, col :: cols) :: rest)
               summary w in
  detect_primary_key execute schema table w = (Ok key, (st, w.2), ev1)
  ∧ (Py.truthy_opt key = false ↔ tcols = [] ∨ key = Some "")
  ∧ (Py.truthy_opt key = false →
       run = (let '(r, w2, ev2) :=
                tables_loop execute commit conn_database parser translator
                  fuel schema lang batch_size rest summary (st, w.2) in
              (r, w2, ev1 ++ EvPrint (MsgNoPrimaryKey table) :: ev2)))
  ∧ (∀ c, Forall (λ x, is_primary x = false) tcols →
       head (column_names tcols) = Some c → Py.truthy c = true →
       key = Some c
       ∧ run = (let '(r, w2, ev2) :=
                  (entry ← columns_loop execute commit conn_database parser
                             translator fuel table c schema lang batch_size
                             (col :: cols) ∅;
                   tables_loop execute commit conn_database parser translator
                     fuel schema lang batch_size rest
                     (<[table := entry]> summary)) (st, w.2) in
                (r, w2, ev1 ++ ev2))
       ∧ ∃ stmts,
           statements run.2
           = SelectColumns schema table
             :: CountColumn (if Py.truthy_opt schema then schema
                             else conn_database)
                  table (col +:+ "_" +:+ lang)
             :: stmts).
Proof.
  intros Hex ev1 key run.
  assert (Hpk : detect_primary_key execute schema table w
                = (Ok key, (st, w.2), ev1)).
  { rewrite detect_primary_key_spec. cbn zeta. rewrite Hex.
    subst key ev1. unfold is_primary, column_names.
    destruct (List.find _ tcols) as [c|]; [done|].
    by destruct tcols as [|[[c d] k] tcols]. }
  assert (Hskip : Py.truthy_opt key = false →
    run = (let '(r, w2, ev2) :=
             tables_loop execute commit conn_database parser translator
               fuel schema lang batch_size rest summary (st, w.2) in
           (r, w2, ev1 ++ EvPrint (MsgNoPrimaryKey table) :: ev2))).
  { intros Hfalsy. subst run. cbn [tables_loop].
    unfold mbind at 1, M_bind at 1, bind at 1.
    rewrite Hpk, Hfalsy. cbn [negb]. run.
    by destruct (tables_loop _ _ _ _ _ _ _ _ _ _ _ _) as [[r w2] ev2]. }
  split_and!; [done| |done|].
  - subst key. split.
    + destruct (List.find is_primary tcols) as [c|].
      * cbn. destruct (c.1.1); [by right|done].
      * destruct tcols as [|[[c d] k] tcols]; [by left|].
        cbn. destruct c; [by right|done].
    + intros [->|Hk]; [done|]. by rewrite Hk.
  - intros c Hnone Hhead Htruthy.
    assert (Hkey : key = Some c).
    { subst key. by rewrite (find_none _ _ Hnone). }
    assert (Hrun : run = (let '(r, w2, ev2) :=
                  (entry ← columns_loop execute commit conn_database parser
                             translator fuel table c schema lang batch_size
                             (col :: cols) ∅;
                   tables_loop execute commit conn_database parser translator
                     fuel schema lang batch_size rest
                     (<[table := entry]> summary)) (st, w.2) in
                (r, w2, ev1 ++ ev2))).
    { subst run. cbn [tables_loop].
      unfold mbind at 1, M_bind at 1, bind at 1.
      rewrite Hpk, Hkey. cbn [Py.truthy_opt]. rewrite Htruthy.
      cbn [negb default]. done. }
    split_and!; [done|done|].
    rewrite Hrun.
    destruct (bind_prefix
                (columns_loop execute commit conn_database parser translator
                   fuel table c schema lang batch_size (col :: cols) ∅)
                (λ entry,
                   tables_loop execute commit conn_database parser translator
                     fuel schema lang batch_size rest
                     (<[table := entry]> summary)) (st, w.2)) as [more Hmore].
    destruct (columns_loop_first_statement fuel table c schema lang batch_size
                col cols ∅ (st, w.2)) as (r & more' & Hfirst).
    rewrite Hfirst in Hmore.
    match type of Hmore with (?t).2 = _ => destruct t as [[r2 w2] ev2] end.
    cbn [snd] in Hmore |- *.
    rewrite Hmore. subst ev1. cbn. by eexists.
Qed.

(** C9.  Providing the destination column is idempotent: two calls in a
    row of [add_target_column_if_needed] issue at most one [ALTER TABLE],
    the database being one where a committed [ALTER TABLE] shows in the
    metadata; and a call that finds the column issues none. *)
Theorem add_target_column_idempotent table target_col schema (w : W) :
  let dbname := if Py.truthy_opt schema then schema else conn_database in
  let add := add_target_column_if_needed execute commit conn_database
               table target_col schema in
  (alter_is_visible execute commit dbname table target_col w.1 →
   (length (alters ((add ;; add) w).2) ≤ 1)%nat)
  ∧ (∀ n st,
       execute (CountColumn dbname table target_col) w.1
         = (inr (RCount n), st) →
       0 < n →
       add w = (Ok (), (st, w.2),
                [EvSql (CountColumn dbname table target_col) (inr (RCount n))])
       ∧ alters (add w).2 = []).
Proof.
  intros dbname add. split.
  - intros Hvis. unfold mbind, M_bind, bind. subst add.
    rewrite add_target_column_spec. fold dbname. cbn zeta.
    destruct (execute (CountColumn dbname table target_col) w.1)
      as [[e|r] st1] eqn:Hprobe; [cbn; lia|].
    destruct r as [cols|n|rows|]; try (cbn; lia).
    destruct (0 <? n) eqn:Hn.
    + rewrite add_target_column_spec. fold dbname. cbn zeta. cbn [fst snd].
      destruct (execute (CountColumn dbname table target_col) st1)
        as [[e|r] st1']; [cbn; lia|].
      destruct r as [cols|n'|rows|]; try (cbn; lia).
      destruct (0 <? n'); [cbn; lia|].
      destruct (execute _ st1') as [[e|r] st2]; [cbn; lia|].
      destruct (commit st2) as [[e|u] st3]; cbn; lia.
    + destruct (execute (AlterAddColumn table target_col) st1)
        as [[e|r] st2] eqn:Halter; [cbn; lia|].
      destruct (commit st2) as [[e|u] st3] eqn:Hcommit; [cbn; lia|].
      destruct (Hvis _ _ _ _ _ _ Hprobe Halter Hcommit)
        as (n' & st4 & Hprobe' & Hn').
      rewrite add_target_column_spec. fold dbname. cbn zeta. cbn [fst snd].
      rewrite Hprobe'. apply Z.ltb_lt in Hn'. rewrite Hn'. cbn. lia.
  - intros n st Hprobe Hn. subst add.
    rewrite add_target_column_spec. fold dbname. cbn zeta.
    rewrite Hprobe. apply Z.ltb_lt in Hn. by rewrite Hn.
Qed.

End UpdaterFacts.

(** ** The properties at work on the database in memory *)

Lemma translation_error_is_caught_witness :
  translate_row parser_stub failing_translator "de" "World" (doc_db_ready, ())
  = (Ok "", (doc_db_ready, ()),
     [EvTranslateBatch ["World"];
      EvPrint (MsgTranslateError (Exception "ConnectionError"))]).
Proof.
  exact (proj1 (translation_error_is_caught mem_execute parser_stub
                  failing_translator "de" "World" (doc_db_ready, ()))
           (Exception "ConnectionError") () eq_refl).
Defined.


Lemma table_without_key_is_skipped_witness :
  tables_loop mem_execute mem_commit (Some "cms") parser_stub empty_translator
    10 (Some "cms") "de" 10 [("bare", ["x"]); ("doc", ["title"])] ∅
    (bare_db, ())
  = (let '(r, w2, ev2) :=
       tables_loop mem_execute mem_commit (Some "cms") parser_stub
         empty_translator 10 (Some "cms") "de" 10 [("doc", ["title"])] ∅
         (bare_db, ()) in
     (r, w2,
      [EvSql (SelectColumns (Some "cms") "bare") (inr (RColumns []))]
      ++ EvPrint (MsgNoPrimaryKey "bare") :: ev2)).
Proof.
  destruct (table_without_key_is_skipped mem_execute mem_commit
              (Some "cms") parser_stub empty_translator 10 (Some "cms") "de" 10
              "bare" "x" [] [("doc", ["title"])] ∅ (bare_db, ()) [] bare_db
              eq_refl)
    as (_ & _ & Hskip & _).
  apply Hskip. reflexivity.
Defined.

(** C3, as stated, fails: a table with columns and without a primary key
    is not skipped.  Its first column, here [day], is taken as the key: the
    destination column is added, the rows are read, and every write
    addresses the rows by [day]. *)
Lemma keyless_table_is_processed :
  let run := translate_and_update mem_execute mem_commit (Some "cms")
               parser_stub stub_translator 10 [("log", ["msg"])]
               (Some "cms") "de" 10 (log_db, ()) in
  (mt_columns <$> db_tables log_db !! "log")
  = Some [("day", "int", ""); ("msg", "text", "")]
  ∧ statements run.2
    = [SelectColumns (Some "cms") "log";
       CountColumn (Some "cms") "log" "msg_de";
       AlterAddColumn "log" "msg_de";
       CountPending "log" "msg" "msg_de";
       SelectPending "log" "day" "msg" "msg_de" 10 0;
       UpdateRow "log" "msg_de" "msg" "day" "Welt" "Welt" (SqlInt 1);
       UpdateRow "log" "msg_de" "msg" "day" "Welt" "Welt" (SqlInt 1)]
  ∧ run.1.1
    = Ok {[ "log" := {[ "msg" := {| total := 2; ok := 2; fail := 0 |} ]} ]}
  ∧ EvPrint (MsgNoPrimaryKey "log") ∉ run.2.
Proof.
  split_and!; [done|by vm_compute|by vm_compute|].
  vm_compute. intros H. repeat (inversion H as [|? ? ? H']; subst; clear H; rename H' into H). 
Qed.

Lemma page_loop_order_witness :
  let run := page_loop mem_execute mem_commit parser_stub stub_translator 5
               "doc" "title" "title_de" "id" "de" 1 2 0 ledger0
               (doc_db_ready, ()) in
  (∀ i j fi fj, (i < j)%nat →
     fetches run.2 !! i = Some fi → fetches run.2 !! j = Some fj →
     fi.2 < fj.2)
  ∧ run.1.1 ≠ OutOfFuel
  ∧ head (fetches run.2) = Some (1, 0)
  ∧ (1 < length (fetches run.2))%nat.
Proof.
  intros run.
  destruct (page_loop_order mem_execute mem_commit parser_stub stub_translator
              5 "doc" "title" "title_de" "id" "de" 1 2 ledger0
              (doc_db_ready, ()))
    as (_ & _ & _ & Hasc & _ & _ & Hend & Hhead & _ & Hok & _).
  fold run in Hasc, Hend, Hhead, Hok.
  split_and!.
  - apply Hasc. lia.
  - apply Hend; [lia|vm_compute; lia].
  - apply Hhead; lia.
  - destruct (Hok {| total := 2; ok := 1; fail := 0 |} ltac:(by vm_compute))
      as [_ Hnext].
    apply (Hnext 0%nat [(SqlInt 1, Some "<p>Hello</p>")]);
      [by vm_compute|done|lia].
Defined.

Lemma add_target_column_idempotent_witness :
  let add := add_target_column_if_needed (T := unit) mem_execute mem_commit
               (Some "cms") "doc" "title_de" (Some "cms") in
  (length (alters ((add ;; add) (doc_db, ())).2) ≤ 1)%nat.
Proof.
  intros add.
  apply (proj1 (add_target_column_idempotent mem_execute mem_commit
                  (Some "cms") "doc" "title_de" (Some "cms") (doc_db, ()))).
  intros n st1 r st2 u st3 H1 H2 H3.
  vm_compute in H1. injection H1 as <- <-.
  vm_compute in H2. injection H2 as <- <-.
  vm_compute in H3. injection H3 as <- <-.
  eexists _, _. split; [vm_compute; reflexivity|lia].
Defined.

(** ** The scenarios of the table [doc] *)

(** One run with the translator of the scenarios: the column [title_de] is
    created, both rows are written back, and the summary counts them. *)
Example scenario_all_translated :
  let run := translate_and_update mem_execute mem_commit (Some "cms")
               parser_stub stub_translator 10 [("doc", ["title"])]
               (Some "cms") "de" 10 (doc_db, ()) in
  run.1.1 = Ok {[ "doc" := {[ "title" := {| total := 2; ok := 2; fail := 0 |} ]} ]}
  ∧ mt_rows <$> db_tables run.1.2.1 !! "doc"
    = Some [ {[ "id" := SqlInt 1; "title" := SqlStr "<p>Hallo</p>";
                "title_de" := SqlStr "<p>Hallo</p>" ]};
             {[ "id" := SqlInt 2; "title" := SqlStr "Welt";
                "title_de" := SqlStr "Welt" ]} ].
Proof. split; by vm_compute. Qed.

(** One run with a translator that answers the empty string: nothing is
    written, both rows are counted as failed and stay pending, and a second
    run with the translator of the scenarios writes both back. *)
Example scenario_none_translated :
  let run1 := translate_and_update mem_execute mem_commit (Some "cms")
                parser_stub empty_translator 10 [("doc", ["title"])]
                (Some "cms") "de" 10 (doc_db, ()) in
  let run2 := translate_and_update mem_execute mem_commit (Some "cms")
                parser_stub stub_translator 10 [("doc", ["title"])]
                (Some "cms") "de" 10 run1.1.2 in
  run1.1.1 = Ok {[ "doc" := {[ "title" := {| total := 2; ok := 0; fail := 2 |} ]} ]}
  ∧ run1.1.2.1 = doc_db_ready
  ∧ run2.1.1 = Ok {[ "doc" := {[ "title" := {| total := 2; ok := 2; fail := 0 |} ]} ]}.
Proof. split_and!; by vm_compute. Qed.

(** ** Python strings: trimming *)

(* ---- strings ---- *)
Lemma string_app_cons c (s1 s2 : string) :
  String c s1 +:+ s2 = String c (s1 +:+ s2).
Proof. done. Qed.

Lemma string_app_nil_l (s : string) : "" +:+ s = s.
Proof. done. Qed.

Lemma string_app_assoc (s1 s2 s3 : string) :
  (s1 +:+ s2) +:+ s3 = s1 +:+ (s2 +:+ s3).
Proof.
  induction s1 as [|c s1 IH]; [done|]. by rewrite !string_app_cons, IH.
Qed.

Lemma string_app_nil_r (s : string) : s +:+ "" = s.
Proof. induction s as [|c s IH]; [done|]. by rewrite string_app_cons, IH. Qed.

Lemma rev_app_spec (s1 s2 : string) :
  String.rev_app s1 s2 = String.rev s1 +:+ s2.
Proof.
  unfold String.rev. revert s2.
  induction s1 as [|c s1 IH]; intros s2; simpl; [done|].
  rewrite IH, (IH (String c "")), string_app_assoc. done.
Qed.

Lemma string_rev_app (s1 s2 : string) :
  String.rev (s1 +:+ s2) = String.rev s2 +:+ String.rev s1.
Proof.
  induction s1 as [|c s1 IH]; simpl.
  - by rewrite string_app_nil_r.
  - unfold String.rev at 1 3. simpl. rewrite !rev_app_spec, IH.
    by rewrite string_app_assoc.
Qed.

Lemma string_rev_involutive (s : string) : String.rev (String.rev s) = s.
Proof.
  induction s as [|c s IH]; [done|].
  unfold String.rev at 2. simpl. rewrite rev_app_spec, string_rev_app, IH.
  done.
Qed.

Lemma lstrip_of_head p s :
  match Py.lstrip_of p s with
  | EmptyString => True
  | String c _ => p c = false
  end.
Proof.
  induction s as [|c s IH]; simpl; [done|].
  destruct (p c) eqn:E; [done|]. done.
Qed.

Lemma lstrip_of_idemp p s : Py.lstrip_of p (Py.lstrip_of p s) = Py.lstrip_of p s.
Proof.
  pose proof (lstrip_of_head p s) as H.
  destruct (Py.lstrip_of p s) as [|c t]; [done|]. simpl. by rewrite H.
Qed.

Lemma lstrip_of_suffix p s : ∃ ws, s = ws +:+ Py.lstrip_of p s.
Proof.
  induction s as [|c s [ws IH]]; simpl; [by exists ""|].
  destruct (p c).
  - exists (String c ws). rewrite string_app_cons. by f_equal.
  - by exists "".
Qed.

Lemma rstrip_of_prefix p s : ∃ ws, s = Py.rstrip_of p s +:+ ws.
Proof.
  unfold Py.rstrip_of.
  destruct (lstrip_of_suffix p (String.rev s)) as [ws H].
  exists (String.rev ws).
  rewrite <- string_rev_app, <- H. by rewrite string_rev_involutive.
Qed.

Lemma rstrip_of_idemp p s : Py.rstrip_of p (Py.rstrip_of p s) = Py.rstrip_of p s.
Proof.
  unfold Py.rstrip_of. by rewrite string_rev_involutive, lstrip_of_idemp.
Qed.

Lemma strip_idemp s : Py.strip (Py.strip s) = Py.strip s.
Proof.
  unfold Py.strip.
  set (t := Py.lstrip_of Py.isspace s).
  assert (Ht : Py.lstrip_of Py.isspace (Py.rstrip_of Py.isspace t)
               = Py.rstrip_of Py.isspace t).
  { pose proof (lstrip_of_head Py.isspace s) as Hh. fold t in Hh.
    destruct (rstrip_of_prefix Py.isspace t) as [ws Hws].
    destruct (Py.rstrip_of Py.isspace t) as [|c r]; [done|].
    rewrite Hws, string_app_cons in Hh. simpl. by rewrite Hh. }
  by rewrite Ht, rstrip_of_idemp.
Qed.

(** ** The codec: extracted values, long lists and a second extraction *)

(** X1.  The values [extract_text_nodes] returns are the strings of the
    document that are not blank, in document order and trimmed: none is
    empty, none is blank, and none has white space at either end. *)
Theorem extract_texts_trimmed (contents : list node) :
  let soup := BeautifulSoup contents in
  text <$> extract_text_nodes_soup soup
  = (λ x, Py.strip x.2) <$> List.filter extractable (strings soup)
  ∧ Forall (λ v, well_trimmed v = true) (text <$> extract_text_nodes_soup soup)
  ∧ Forall (λ n, text n ≠ "") (extract_text_nodes_soup soup).
Proof.
  intros soup.
  assert (H : text <$> extract_text_nodes_soup soup = leaf_values soup)
    by (by apply recurse_values).
  assert (Hall : Forall (λ v, well_trimmed v = true) (leaf_values soup)).
  { unfold leaf_values. apply Forall_fmap, Forall_forall.
    intros x Hx%list_elem_of_In%filter_In. destruct Hx as [_ Hx].
    unfold well_trimmed. simpl. rewrite strip_idemp.
    unfold extractable in Hx. rewrite Hx. by rewrite bool_decide_eq_true_2. }
  split_and!; [done|by rewrite H|].
  rewrite <- H in Hall. apply Forall_fmap in Hall.
  eapply Forall_impl; [exact Hall|]. intros n Hn. simpl in Hn.
  unfold well_trimmed in Hn. apply andb_true_iff in Hn as [Hn1 Hn2].
  apply bool_decide_eq_true in Hn2. rewrite Hn2 in Hn1.
  by destruct (text n).
Qed.

Lemma recurse_replace_each_exhausted V cs :
  Forall (λ c, ∀ idx, (length V ≤ idx)%nat → recurse_replace V c idx = (c, idx)) cs →
  ∀ idx, (length V ≤ idx)%nat → recurse_replace_each V cs idx = (cs, idx).
Proof.
  induction 1 as [|c cs Hc _ IH]; intros idx Hidx; [done|].
  cbn [recurse_replace_each]. destruct c as [cls s|n a l].
  - assert ((idx <? length V)%nat = false) as -> by (apply Nat.ltb_ge; lia).
    rewrite andb_false_r. by rewrite IH.
  - rewrite Hc by done. by rewrite IH.
Qed.

Lemma recurse_replace_exhausted V el : ∀ idx,
  (length V ≤ idx)%nat → recurse_replace V el idx = (el, idx).
Proof.
  induction el as [cls s|name attrs contents IH] using node_ind;
    intros idx Hidx; [done|].
  rewrite recurse_replace_Tag.
  by rewrite (recurse_replace_each_exhausted V contents IH idx Hidx).
Qed.

Lemma fill_counter V l : ∀ idx,
  (idx ≤ length V)%nat →
  (fill V idx l).2
  = (idx + Nat.min (length (List.filter extractable l)) (length V - idx))%nat.
Proof.
  induction l as [|x l IH]; intros idx Hidx; cbn [fill List.filter]; [simpl; lia|].
  destruct (extractable x); cbn [andb].
  - destruct (idx <? length V)%nat eqn:Hlt.
    + apply Nat.ltb_lt in Hlt. specialize (IH (S idx) Hlt).
      destruct (fill V (S idx) l). cbn [fst snd length] in *. lia.
    + apply Nat.ltb_ge in Hlt. specialize (IH idx Hidx).
      destruct (fill V idx l). cbn [fst snd length] in *. lia.
  - specialize (IH idx Hidx). destruct (fill V idx l).
    cbn [fst snd length] in *. lia.
Qed.

Lemma leaf_rank_lt l j x :
  l !! j = Some x → extractable x = true →
  (leaf_rank l j < length (List.filter extractable l))%nat.
Proof.
  intros Hj Hx. unfold leaf_rank.
  rewrite <- (take_drop_middle l j x Hj) at 2.
  rewrite List.filter_app, length_app. simpl. rewrite Hx. simpl. lia.
Qed.

Lemma fill_values V l : ∀ idx,
  Forall (λ v, well_trimmed v = true) V →
  (idx + length (List.filter extractable l) ≤ length V)%nat →
  (λ x : string_class * string, Py.strip x.2)
    <$> List.filter extractable (fill V idx l).1
  = take (length (List.filter extractable l)) (drop idx V).
Proof.
  induction l as [|x l IH]; intros idx HV Hlen; [done|].
  cbn [fill List.filter] in Hlen |- *.
  destruct (extractable x) eqn:Hx; cbn [andb length] in Hlen |- *.
  - assert ((idx <? length V)%nat = true) as -> by (apply Nat.ltb_lt; lia).
    specialize (IH (S idx) HV ltac:(lia)).
    destruct (fill V (S idx) l) as [r i]. cbn [fst snd] in *.
    destruct (V !! idx) as [v|] eqn:Hv;
      [|apply lookup_ge_None in Hv; lia].
    rewrite (nth_lookup_Some _ _ _ _ Hv).
    rewrite (drop_S _ _ _ Hv). cbn [take List.filter].
    rewrite Forall_forall in HV.
    specialize (HV v (list_elem_of_lookup_2 _ _ _ Hv)).
    unfold well_trimmed in HV. apply andb_true_iff in HV as [H1 H2].
    apply bool_decide_eq_true in H2.
    unfold extractable at 1. cbn [snd]. rewrite H1.
    rewrite fmap_cons. cbn [snd]. by rewrite H2, IH.
  - specialize (IH idx HV Hlen). destruct (fill V idx l) as [r i].
    cbn [fst snd List.filter] in *. by rewrite Hx.
Qed.

Lemma rebuild_soup_is_tag contents V :
  is_tag (rebuild_soup (BeautifulSoup contents) V) = true.
Proof.
  unfold rebuild_soup, BeautifulSoup. rewrite recurse_replace_Tag.
  by destruct (recurse_replace_each V contents 0).
Qed.

(** X2.  With at least as many values as text leaves, reconstruction keeps
    the markup, gives every text leaf the value of its rank, leaves every
    blank string as it was, and consumes exactly as many values as there
    are text leaves: the values beyond are not used. *)
Theorem rebuild_full_list (contents : list node) (V : list string) :
  let soup := BeautifulSoup contents in
  let out := rebuild_soup soup V in
  (length (extract_text_nodes_soup soup) ≤ length V)%nat →
  skeleton out = skeleton soup
  ∧ (∀ j x, strings soup !! j = Some x → extractable x = true →
       ∃ v, V !! leaf_rank (strings soup) j = Some v
            ∧ strings out !! j = Some (PlainString, v))
  ∧ (∀ j x, strings soup !! j = Some x → extractable x = false →
       strings out !! j = Some x)
  ∧ (recurse_replace V soup 0).2 = length (extract_text_nodes_soup soup).
Proof.
  intros soup out Hlen.
  assert (Hk : length (extract_text_nodes_soup soup)
               = length (List.filter extractable (strings soup))).
  { unfold extract_text_nodes_soup.
    rewrite <- (length_fmap text), (recurse_values soup "" eq_refl).
    unfold leaf_values. by rewrite length_fmap. }
  destruct (recurse_replace_fill V soup 0%nat eq_refl) as (H1 & H2 & H3).
  fold (rebuild_soup soup V) in H1, H3. fold out in H1, H3.
  split_and!; [done|..].
  - intros j x Hj Hx.
    pose proof (leaf_rank_lt _ _ _ Hj Hx) as Hr.
    destruct (V !! leaf_rank (strings soup) j) as [v|] eqn:Hv;
      [|apply lookup_ge_None in Hv; lia].
    exists v. split; [done|].
    rewrite H1, (fill_lookup V _ 0 j x Hj). cbn [Nat.add]. rewrite Hx.
    apply lookup_lt_Some in Hv as Hlt. apply Nat.ltb_lt in Hlt.
    rewrite Hlt. cbn [andb]. by rewrite (nth_lookup_Some _ _ _ _ Hv).
  - intros j x Hj Hx. rewrite H1, (fill_lookup V _ 0 j x Hj). by rewrite Hx.
  - rewrite H2, fill_counter by lia. lia.
Qed.

(** X3.  Reconstruction with an empty list of values changes no node of
    the tree, whatever the tree: what [rebuild_html_from_nodes] returns is
    the parsed document serialized again. *)
Theorem rebuild_without_values (parser : string → option (list node))
    (to_str : node → string) (html : string) (soup : node) :
  rebuild_soup soup [] = soup
  ∧ rebuild_html_from_nodes parser to_str html []
    = (λ contents, to_str (BeautifulSoup contents)) <$> parser html.
Proof.
  assert (H : ∀ el, rebuild_soup el [] = el).
  { intros el. unfold rebuild_soup.
    by rewrite recurse_replace_exhausted by (simpl; lia). }
  split; [done|]. unfold rebuild_html_from_nodes.
  destruct (parser html) as [contents|]; [|done]. cbn. by rewrite H.
Qed.

Lemma extract_rebuild_soup (contents : list node) (V : list string) :
  let soup := BeautifulSoup contents in
  Forall (λ v, well_trimmed v = true) V →
  (length (extract_text_nodes_soup soup) ≤ length V)%nat →
  text <$> extract_text_nodes_soup (rebuild_soup soup V)
  = take (length (extract_text_nodes_soup soup)) V.
Proof.
  intros soup HV Hlen.
  assert (Hk : length (extract_text_nodes_soup soup)
               = length (List.filter extractable (strings soup))).
  { unfold extract_text_nodes_soup.
    rewrite <- (length_fmap text), (recurse_values soup "" eq_refl).
    unfold leaf_values. by rewrite length_fmap. }
  unfold extract_text_nodes_soup at 1.
  rewrite recurse_values by apply rebuild_soup_is_tag.
  unfold leaf_values.
  destruct (recurse_replace_fill V soup 0%nat eq_refl) as (H1 & _ & _).
  fold (rebuild_soup soup V) in H1. rewrite H1.
  rewrite Hk in Hlen |- *. by rewrite fill_values by (done || lia).
Qed.

(** X4.  Extraction after reconstruction gives the values back, as far as
    the parser reads the rebuilt text back as the rebuilt tree (it need
    not: replaced leaves that have become neighbours are one string to a
    parser): then, when the values are not blank and carry no surrounding
    white space, and there are enough of them, [extract_text_nodes] of
    what [rebuild_html_from_nodes] returned gives the first [k] values,
    [k] being the number of text leaves of the document. *)
Theorem extract_after_rebuild (parser : string → option (list node))
    (to_str : node → string) (html : string)
    (contents contents' : list node) (V : list string) :
  let soup := BeautifulSoup contents in
  parser html = Some contents →
  rebuild_soup soup V = BeautifulSoup contents' →
  parser (to_str (BeautifulSoup contents')) = Some contents' →
  Forall (λ v, well_trimmed v = true) V →
  (length (extract_text_nodes_soup soup) ≤ length V)%nat →
  ∃ out nodes,
    rebuild_html_from_nodes parser to_str html V = Some out
    ∧ extract_text_nodes parser out = Some nodes
    ∧ text <$> nodes = take (length (extract_text_nodes_soup soup)) V.
Proof.
  intros soup Hparse Hout Hback HV Hlen.
  exists (to_str (BeautifulSoup contents')),
         (extract_text_nodes_soup (BeautifulSoup contents')).
  split_and!.
  - unfold rebuild_html_from_nodes. rewrite Hparse. cbn. fold soup.
    by rewrite Hout.
  - unfold extract_text_nodes. by rewrite Hback.
  - rewrite <- Hout. by apply extract_rebuild_soup.
Qed.

(** ** Identifiers in SQL text *)

Lemma read_quoted_body_quote name rest :
  starts_with_backtick rest = false →
  read_quoted_body (replace_char "`" "``" name +:+ "`" +:+ rest)
  = Some (name, rest).
Proof.
  intros Hrest. induction name as [|c name IH].
  - cbn [replace_char]. rewrite string_app_nil_l.
    change ("`" +:+ rest) with (String "`" rest). cbn [read_quoted_body].
    rewrite decide_True by done.
    destruct rest as [|c' rest]; [done|].
    simpl in Hrest. apply bool_decide_eq_false in Hrest.
    by rewrite decide_False.
  - cbn [replace_char]. destruct (decide (c = "`"%char)) as [->|Hc].
    + change (("``" +:+ replace_char "`" "``" name) +:+ "`" +:+ rest)
        with (String "`" (String "`"
                (replace_char "`" "``" name +:+ "`" +:+ rest))).
      cbn [read_quoted_body]. rewrite !decide_True by done.
      by rewrite IH.
    + change ((String c "" +:+ replace_char "`" "``" name) +:+ "`" +:+ rest)
        with (String c (replace_char "`" "``" name +:+ "`" +:+ rest)).
      cbn [read_quoted_body]. rewrite decide_False by done. by rewrite IH.
Qed.

Lemma read_quoted_quote_ident name rest :
  starts_with_backtick rest = false →
  read_quoted (quote_ident name +:+ rest) = Some (name, rest).
Proof.
  intros Hrest. unfold quote_ident.
  change (("`" +:+ replace_char "`" "``" name +:+ "`") +:+ rest)
    with (String "`" ((replace_char "`" "``" name +:+ "`") +:+ rest)).
  cbn [read_quoted]. rewrite decide_True by done.
  rewrite string_app_assoc. by apply read_quoted_body_quote.
Qed.

(** X5.  Whatever the name, backticks included, the text [quote_ident]
    builds is read back as that one name, and the reading stops where the
    rest of the statement begins; so two names never get the same quoted
    text. *)
Theorem quote_ident_reads_back name rest :
  starts_with_backtick rest = false →
  read_quoted (quote_ident name +:+ rest) = Some (name, rest)
  ∧ ∀ other, quote_ident other = quote_ident name → other = name.
Proof.
  intros Hrest. split; [by apply read_quoted_quote_ident|].
  intros other H.
  pose proof (read_quoted_quote_ident other "" eq_refl) as Ha.
  pose proof (read_quoted_quote_ident name "" eq_refl) as Hb.
  rewrite H, Hb in Ha. by injection Ha.
Qed.

(** ** The client: its requests and its waits *)

Lemma filter_all {A} (f : A → bool) (l : list A) :
  Forall (λ x, f x = true) l → List.filter f l = l.
Proof. induction 1 as [|x l Hx _ IH]; [done|]. simpl. by rewrite Hx, IH. Qed.

Section ClientTrace.
Context {Net : Type} (post : request → Net → reply * Net).

Lemma attempt_once_trace req n :
  ∃ evs,
    attempt_once Net post req n
    = (Ok (option_map (λ data : list item, first_text <$> data)
             (success_data (post req n).1)),
       (post req n).2, evs)
    ∧ replies evs = [(post req n).1] ∧ posts evs = [req] ∧ sleeps evs = [].
Proof.
  unfold attempt_once, try_except, requests_post, mbind, M_bind, bind.
  destruct (post req n) as [r n']. cbn [fst snd].
  destruct r as [status body_text json|e]; cbn.
  - destruct (status =? 200) eqn:E; cbn.
    + destruct json as [data|]; cbn; eauto.
    + destruct json; eauto.
  - eauto.
Qed.

Lemma attempts_trace req texts retry fuel : ∀ attempt n,
  (Z.to_nat (retry - attempt) ≤ fuel)%nat →
  let evs := (attempts Net post fuel req texts retry attempt n).2 in
  posts evs = replicate (length (replies evs)) req
  ∧ sleeps evs = backoff attempt (length (List.filter no_data (replies evs)))
  ∧ (length (replies evs) ≤ Z.to_nat (retry - attempt))%nat.
Proof.
  induction fuel as [|fuel IH]; intros attempt n Hfuel evs; subst evs.
  - simpl. assert ((attempt <? retry) = false) as -> by lia.
    split_and!; [done|done|simpl; lia].
  - cbn [attempts]. destruct (attempt <? retry) eqn:Hlt;
      [|split_and!; [done|done|simpl; lia]].
    destruct (attempt_once_trace req n) as (evs1 & Hrun & Hrep & Hpost & Hsleep).
    unfold mbind, M_bind, bind. rewrite Hrun.
    unfold no_data, backoff in *.
    destruct (success_data (post req n).1) as [data|] eqn:Hdata;
      cbn [option_map].
    + cbn [fst snd mret M_ret ret]. unfold replies, posts, sleeps in *.
      rewrite app_nil_r, Hrep, Hpost, Hsleep. cbn. rewrite Hdata. cbn.
      split_and!; [done|done|lia].
    + unfold emit. cbn [Z.add].
      specialize (IH (attempt + 1) (post req n).2 ltac:(lia)).
      destruct (attempts _ _ _ _ _ _ _ _) as [[res n'] evs].
      cbn [fst snd] in IH |- *. destruct IH as (Hp & Hs & Hl).
      unfold replies, posts, sleeps in *.
      rewrite !omap_app, Hrep, Hpost, Hsleep. cbn.
      rewrite Hp, Hs, Hdata. cbn [length replicate seq fmap list_fmap].
      split_and!; [done| |lia].
      rewrite Z.add_0_r. f_equal.
      rewrite <- fmap_S_seq, <- list_fmap_compose.
      apply list_fmap_ext. intros _ k _. cbn. f_equal. lia.
Qed.

Lemma translate_batch_request self texts lang retry timeout :
  texts ≠ [] →
  translate_batch Net post self texts lang retry timeout
  = attempts Net post (Z.to_nat retry) (request_of self texts lang timeout)
      texts retry 0.
Proof.
  intros Hne. destruct texts as [|t ts]; [done|].
  unfold translate_batch, request_of.
  by destruct lang as [[|c l]|].
Qed.

(** X6.  The waits of a call are 2, 4, 8, ... seconds, one after each
    attempt that did not end the call; a call that exhausts [retry]
    attempts has waited after the last one too. *)
Theorem translate_batch_backoff self texts lang retry timeout n :
  let evs := (translate_batch Net post self texts lang retry timeout n).2 in
  sleeps evs = backoff 0 (length (List.filter no_data (replies evs)))
  ∧ (Forall (λ r, no_data r = true) (replies evs) →
     length (replies evs) = Z.to_nat retry →
     sleeps evs = (λ k : nat, 2 ^ (1 + Z.of_nat k)) <$> seq 0 (Z.to_nat retry)).
Proof.
  intros evs. subst evs.
  destruct texts as [|t ts];
    [split; [done|]; intros _ H; simpl in H; by rewrite <- H|].
  rewrite translate_batch_request by done.
  destruct (attempts_trace (request_of self (t :: ts) lang timeout) (t :: ts)
              retry (Z.to_nat retry) 0 n ltac:(lia)) as (_ & Hs & _).
  split; [done|].
  intros Hall Hlen. rewrite Hs. unfold backoff.
  by rewrite (filter_all _ _ Hall), Hlen.
Qed.

(** X7.  Every post of a call sends the same request, the one built from
    the arguments and the client; there are never more than [retry] posts,
    and with [retry] at most 0 a non-empty list gets its empty strings
    without any post. *)
Theorem translate_batch_posts self texts lang retry timeout n :
  let evs := (translate_batch Net post self texts lang retry timeout n).2 in
  posts evs = replicate (length (posts evs)) (request_of self texts lang timeout)
  ∧ (length (posts evs) ≤ Z.to_nat retry)%nat
  ∧ (retry ≤ 0 →
     translate_batch Net post self texts lang retry timeout n
     = (Ok (replicate (length texts) ""), n, [])).
Proof.
  intros evs. subst evs.
  destruct texts as [|t ts]; [split_and!; [done|simpl; lia|done]|].
  rewrite translate_batch_request by done.
  destruct (attempts_trace (request_of self (t :: ts) lang timeout) (t :: ts)
              retry (Z.to_nat retry) 0 n ltac:(lia)) as (Hp & _ & Hl).
  assert (Hlen : length (posts (attempts Net post (Z.to_nat retry)
               (request_of self (t :: ts) lang timeout) (t :: ts) retry 0 n).2)
          = length (replies (attempts Net post (Z.to_nat retry)
               (request_of self (t :: ts) lang timeout) (t :: ts) retry 0 n).2)).
  { by rewrite Hp, length_replicate. }
  split_and!.
  - by rewrite Hlen.
  - rewrite Hlen. lia.
  - intros Hretry. replace (Z.to_nat retry) with 0%nat by lia. simpl.
    by assert ((0 <? retry) = false) as -> by lia.
Qed.

Lemma attempts_exhaust req texts retry :
  (∀ req n, no_data (post req n).1 = true) →
  ∀ fuel attempt n,
    (Z.to_nat (retry - attempt) ≤ fuel)%nat →
    ∃ n' evs,
      attempts Net post fuel req texts retry attempt n
      = (Ok (replicate (length texts) ""), n', evs)
      ∧ length (replies evs) = Z.to_nat (retry - attempt).
Proof.
  intros Hnd. induction fuel as [|fuel IH]; intros attempt n Hfuel.
  - exists n, []. simpl. assert ((attempt <? retry) = false) as -> by lia.
    split; [done|simpl; lia].
  - cbn [attempts]. destruct (attempt <? retry) eqn:Hlt;
      [|exists n, []; split; [done|simpl; lia]].
    destruct (attempt_once_trace req n) as (evs1 & Hrun & Hrep & _).
    unfold mbind, M_bind, bind. rewrite Hrun.
    specialize (Hnd req n). unfold no_data in Hnd.
    destruct (success_data (post req n).1); [done|]. cbn [option_map].
    unfold emit.
    destruct (IH (attempt + 1) (post req n).2 ltac:(lia))
      as (n' & evs & H & Hlen).
    rewrite H. eexists _, _. split; [done|].
    unfold replies in *. rewrite !omap_app, Hrep. cbn. lia.
Qed.

Lemma translate_batch_no_data self texts lang retry timeout n :
  texts ≠ [] →
  (∀ req n, no_data (post req n).1 = true) →
  ∃ n' evs,
    translate_batch Net post self texts lang retry timeout n
    = (Ok (replicate (length texts) ""), n', evs)
    ∧ length (replies evs) = Z.to_nat retry.
Proof.
  intros Hne Hnd. rewrite translate_batch_request by done.
  destruct (attempts_exhaust (request_of self texts lang timeout) texts retry
              Hnd (Z.to_nat retry) 0 n ltac:(lia)) as (n' & evs & H & Hlen).
  exists n', evs. by rewrite Z.sub_0_r in Hlen.
Qed.

(** X8.  A reply with status 200 whose body does not decode counts as a
    failed attempt like any other: when no reply carries data, a call for
    a non-empty list posts [retry] times and returns [len(texts)] empty
    strings. *)
Theorem translate_batch_undecodable self texts lang retry timeout n :
  texts ≠ [] →
  (∀ req n, no_data (post req n).1 = true) →
  ∃ n' evs,
    translate_batch Net post self texts lang retry timeout n
    = (Ok (replicate (length texts) ""), n', evs)
    ∧ length (replies evs) = Z.to_nat retry.
Proof. intros Hne Hnd. by apply translate_batch_no_data. Qed.

End ClientTrace.

(** ** The client: its construction, and documents *)

Lemma all_chars_app p s1 s2 :
  all_chars p (s1 +:+ s2) = all_chars p s1 && all_chars p s2.
Proof.
  induction s1 as [|c s1 IH]; [done|].
  rewrite string_app_cons. simpl. by rewrite IH, andb_assoc.
Qed.

Lemma all_chars_rev p s : all_chars p (String.rev s) = all_chars p s.
Proof.
  induction s as [|c s IH]; [done|].
  unfold String.rev. simpl. rewrite rev_app_spec, all_chars_app, IH. simpl.
  by rewrite andb_true_r, andb_comm.
Qed.

Lemma last_char_snoc s c : last_char (s +:+ String c "") = Some c.
Proof.
  induction s as [|c' s IH]; [done|].
  rewrite string_app_cons. cbn [last_char]. rewrite IH.
  by destruct (s +:+ String c "") eqn:E; [destruct s|].
Qed.

Lemma last_char_rev c s : last_char (String.rev (String c s)) = Some c.
Proof. unfold String.rev. simpl. by rewrite rev_app_spec, last_char_snoc. Qed.

Lemma lstrip_of_split p s :
  ∃ ws, s = ws +:+ Py.lstrip_of p s ∧ all_chars p ws = true.
Proof.
  induction s as [|c s (ws & IH & Hws)]; simpl; [by exists ""|].
  destruct (p c) eqn:E.
  - exists (String c ws). rewrite string_app_cons. simpl.
    rewrite E, Hws. split; [by f_equal|done].
  - by exists "".
Qed.

Lemma rstrip_of_split p s :
  ∃ ws, s = Py.rstrip_of p s +:+ ws ∧ all_chars p ws = true
        ∧ match last_char (Py.rstrip_of p s) with
          | Some c => p c = false
          | None => Py.rstrip_of p s = ""
          end.
Proof.
  unfold Py.rstrip_of.
  destruct (lstrip_of_split p (String.rev s)) as (ws & H & Hws).
  exists (String.rev ws). split_and!.
  - rewrite <- string_rev_app, <- H. by rewrite string_rev_involutive.
  - by rewrite all_chars_rev.
  - pose proof (lstrip_of_head p (String.rev s)) as Hh.
    destruct (Py.lstrip_of p (String.rev s)) as [|c t]; [done|].
    by rewrite last_char_rev.
Qed.

(** X9.  The constructor raises [ValueError] exactly when the key or the
    region is empty; otherwise the client keeps the key, the region and the
    language as given, and its endpoint is the given one without its
    trailing slashes: it never ends in a slash. *)
Theorem translator_init k rg tl ep :
  (TranslatorAPI_MIC_init k rg tl ep = inl (Exception "ValueError")
   ↔ k = "" ∨ rg = "")
  ∧ (∀ self,
       TranslatorAPI_MIC_init k rg tl ep = inr self →
       key self = k ∧ region self = rg ∧ target_lang self = tl
       ∧ last_char (endpoint self) ≠ Some "/"%char
       ∧ ∃ slashes,
           ep = endpoint self +:+ slashes
           ∧ all_chars (λ c, bool_decide (c = "/"%char)) slashes = true).
Proof.
  unfold TranslatorAPI_MIC_init. split.
  - destruct k, rg; cbn; split; intros H; try done;
      try (by left); try (by right); by destruct H.
  - intros self.
    destruct (negb (Py.truthy k) || negb (Py.truthy rg)); [done|].
    intros [= <-]. cbn.
    destruct (rstrip_of_split (λ c, bool_decide (c = "/"%char)) ep)
      as (ws & H & Hws & Hlast).
    split_and!; [done|done|done| |by exists ws].
    destruct (last_char _) as [c|]; [|done].
    apply bool_decide_eq_false in Hlast. congruence.
Qed.

Lemma leaf_count_Tag name attrs c cs :
  leaf_count (Tag name attrs (c :: cs))
  = (leaf_count c + leaf_count (Tag name attrs cs))%nat.
Proof. unfold leaf_count. by rewrite strings_Tag, List.filter_app, length_app. Qed.

Lemma nth_replicate_same {A} (x : A) m i : nth i (replicate m x) x = x.
Proof. revert i. induction m as [|m IH]; intros [|i]; simpl; auto. Qed.

Lemma recurse_replace_each_blank m name attrs cs :
  Forall (blank_spec m) cs →
  ∀ idx, (idx + leaf_count (Tag name attrs cs) ≤ m)%nat →
    recurse_replace_each (replicate m "") cs idx
    = (blank_leaves <$> cs, (idx + leaf_count (Tag name attrs cs))%nat).
Proof.
  induction 1 as [|c cs Hc _ IH]; intros idx Hidx.
  { simpl. f_equal. unfold leaf_count. simpl. lia. }
  rewrite leaf_count_Tag in Hidx |- *. cbn [recurse_replace_each].
  destruct c as [cls s|n a l].
  - change (Py.truthy (Py.strip s)) with (extractable (cls, s)).
    unfold leaf_count at 1 in Hidx. unfold leaf_count at 1.
    cbn [strings List.filter] in Hidx |- *.
    rewrite fmap_cons. cbn [blank_leaves].
    destruct (extractable (cls, s)) eqn:E; cbn [length] in Hidx |- *.
    + assert ((idx <? length (replicate m ""))%nat = true) as ->
        by (apply Nat.ltb_lt; rewrite length_replicate; lia).
      cbn [andb]. rewrite nth_replicate_same, IH by lia.
      f_equal. lia.
    + cbn [andb]. rewrite IH by lia. f_equal.
  - rewrite (Hc eq_refl) by lia. rewrite IH by lia.
    rewrite fmap_cons. f_equal. lia.
Qed.

Lemma recurse_replace_blank m el : blank_spec m el.
Proof.
  induction el as [cls s|name attrs contents IH] using node_ind;
    intros Htag idx Hidx; [done|].
  rewrite recurse_replace_Tag.
  by rewrite (recurse_replace_each_blank m name attrs contents IH).
Qed.

Section HtmlClient.
Context {Net : Type} (post : request → Net → reply * Net).
Context (parser : string → option (list node)) (to_str : node → string).

Lemma translate_html_no_data self html lang contents n :
  parser html = Some contents →
  extract_text_nodes_soup (BeautifulSoup contents) ≠ [] →
  (∀ req n, no_data (post req n).1 = true) →
  ∃ n' evs,
    translate_html Net post parser to_str self html lang n
    = (Ok (to_str (blank_leaves (BeautifulSoup contents))), n', evs)
    ∧ length (replies evs) = 3%nat.
Proof.
  intros Hparse Hsome Hnd. unfold translate_html, extract_text_nodes.
  rewrite Hparse. cbn [mbind option_bind].
  set (soup := BeautifulSoup contents) in *.
  destruct (extract_text_nodes_soup soup) as [|nd nodes] eqn:Hnodes; [done|].
  destruct (translate_batch_no_data post self (text <$> nd :: nodes) lang
              default_retry default_timeout n ltac:(by rewrite fmap_cons) Hnd)
    as (n' & evs & Hrun & Hlen).
  unfold mbind at 1, M_bind at 1, bind at 1. rewrite Hrun.
  unfold rebuild_html_from_nodes. rewrite Hparse. cbn [mbind option_bind].
  fold soup. unfold rebuild_soup.
  assert (Hk : length (text <$> nd :: nodes) = leaf_count soup).
  { rewrite <- Hnodes. unfold extract_text_nodes_soup.
    rewrite (recurse_values soup "" eq_refl). unfold leaf_values, leaf_count.
    by rewrite length_fmap. }
  rewrite Hk, (recurse_replace_blank (leaf_count soup) soup eq_refl 0%nat)
    by (simpl; lia).
  cbn. exists n', (evs ++ []). rewrite app_nil_r. by split.
Qed.

(** X10.  When no reply carries data, [translate_html] of a document with
    text does not fail and does not return the document: after three posts
    it returns the document with every text leaf emptied. *)
Theorem translate_html_service_down self html lang contents n :
  parser html = Some contents →
  extract_text_nodes_soup (BeautifulSoup contents) ≠ [] →
  (∀ req n, no_data (post req n).1 = true) →
  ∃ n' evs,
    translate_html Net post parser to_str self html lang n
    = (Ok (to_str (blank_leaves (BeautifulSoup contents))), n', evs)
    ∧ length (replies evs) = 3%nat.
Proof. intros Hparse Hsome Hnd. by apply translate_html_no_data. Qed.

Lemma attempt_once_data req n data :
  success_data (post req n).1 = Some data →
  attempt_once Net post req n
  = (Ok (Some (first_text <$> data)), (post req n).2,
     [EvPost req (post req n).1]).
Proof.
  unfold attempt_once, try_except, requests_post, mbind, M_bind, bind.
  destruct (post req n) as [r n']. cbn [fst snd].
  destruct r as [status body_text [d|]|e]; cbn; try done.
  destruct (status =? 200); [|done]. by intros [= ->].
Qed.

(** X11.  [translate_html] of a document with text sends the trimmed texts
    of all its leaves, in document order, as the body of one request; when
    the first reply carries data, no other post is made and nothing is
    waited for, and the result is the serialized document with its leaves
    replaced, in order, by the first translations of the items. *)
Theorem translate_html_first_reply self html lang contents n data :
  let soup := BeautifulSoup contents in
  let req := request_of self (leaf_values soup) lang default_timeout in
  parser html = Some contents →
  leaf_values soup ≠ [] →
  success_data (post req n).1 = Some data →
  translate_html Net post parser to_str self html lang n
  = (Ok (to_str (rebuild_soup soup (first_text <$> data))),
     (post req n).2, [EvPost req (post req n).1]).
Proof.
  intros soup req Hparse Hsome Hdata.
  unfold translate_html, extract_text_nodes, rebuild_html_from_nodes.
  rewrite Hparse. cbn [mbind option_bind]. fold soup.
  assert (Hv : text <$> extract_text_nodes_soup soup = leaf_values soup)
    by (by apply recurse_values).
  destruct (extract_text_nodes_soup soup) as [|nd nodes] eqn:Hnodes.
  { by rewrite <- Hv in Hsome. }
  rewrite Hv.
  unfold mbind at 1, M_bind at 1, bind at 1.
  rewrite translate_batch_request by done. fold req.
  change (Z.to_nat default_retry) with 3%nat. cbn [attempts].
  change (0 <? default_retry) with true. cbn match.
  unfold mbind at 1, M_bind at 1, bind at 1.
  rewrite (attempt_once_data req n data Hdata).
  by cbn.
Qed.

End HtmlClient.

(** ** The updater: the key, the ledger and the commits *)

Section UpdaterMore.
Context {Store T : Type}.
Context (execute : stmt → Store → (exn + result) * Store).
Context (commit : Store → (exn + unit) * Store).
Context (conn_database : option string).
Context (parser : string → option (list node)).
Context (translator : translator T).

Local Abbreviation W := (Store * T)%type.

Local Ltac run := unfold mbind, M_bind, bind, mret, M_ret, ret, print, emit,
  raise, try_except, call, cursor_execute, conn_commit in *.

Lemma find_first {A} (f : A → bool) (l : list A) :
  match List.find f l with
  | Some x => ∃ i, l !! i = Some x ∧ f x = true
              ∧ ∀ j y, (j < i)%nat → l !! j = Some y → f y = false
  | None => Forall (λ y, f y = false) l
  end.
Proof.
  induction l as [|a l IH]; simpl; [done|].
  destruct (f a) eqn:E.
  - exists 0%nat. split_and!; [done|done|]. intros j y Hj. lia.
  - destruct (List.find f l) as [x|].
    + destruct IH as (i & Hi & Hx & Hbefore). exists (S i).
      split_and!; [done|done|]. intros [|j] y Hj Hy.
      * simpl in Hy. by injection Hy as <-.
      * simpl in Hy. apply (Hbefore j); [lia|done].
    + by constructor.
Qed.

(** X12.  When the query of the columns succeeds, [detect_primary_key]
    returns the first column marked [PRI], or the first column of the table
    when none is marked, and [None] only for a table without columns; what
    it returns is always a column of the table. *)
Theorem detect_primary_key_result schema table (w : W) cols st :
  execute (SelectColumns schema table) w.1 = (inr (RColumns cols), st) →
  ∃ pk,
    detect_primary_key execute schema table w
    = (Ok pk, (st, w.2),
       [EvSql (SelectColumns schema table) (inr (RColumns cols))])
    ∧ (pk = None ↔ cols = [])
    ∧ (∀ c, pk = Some c → c ∈ column_names cols)
    ∧ (∀ i c, cols !! i = Some c → is_primary c = true →
         (∀ j y, (j < i)%nat → cols !! j = Some y → is_primary y = false) →
         pk = Some c.1.1)
    ∧ (Forall (λ c, is_primary c = false) cols → pk = head (column_names cols)).
Proof.
  intros Hex. rewrite detect_primary_key_spec. cbn zeta. rewrite Hex.
  eexists. split; [done|].
  pose proof (find_first is_primary cols) as Hfind.
  change (λ c : string * string * string, bool_decide (c.2 = "PRI"))
    with is_primary.
  destruct (List.find is_primary cols) as [x|].
  - destruct Hfind as (i & Hi & Hx & Hbefore). split_and!.
    + split; [done|]. intros ->. done.
    + intros c [= <-]. unfold column_names.
      apply list_elem_of_fmap. exists x. split; [done|].
      by eapply list_elem_of_lookup_2.
    + intros i' c Hi' Hc Hbefore'.
      destruct (Nat.lt_trichotomy i i') as [Hlt|[->|Hgt]].
      * specialize (Hbefore' _ _ Hlt Hi). congruence.
      * congruence.
      * specialize (Hbefore _ _ Hgt Hi'). congruence.
    + intros Hall. rewrite Forall_forall in Hall.
      specialize (Hall x (list_elem_of_lookup_2 _ _ _ Hi)). congruence.
  - destruct cols as [|c cols]; split_and!; try done.
    + intros c' [= <-]. unfold column_names. rewrite fmap_cons. left.
    + intros i c' Hi Hc _. rewrite Forall_forall in Hfind.
      specialize (Hfind c' (list_elem_of_lookup_2 _ _ _ Hi)). congruence.
Qed.

Lemma quiet_updates_done evs :
  Forall (λ e, quiet e = true) evs → updates_done evs = 0%nat ∧ commits evs = 0%nat.
Proof.
  unfold updates_done, commits.
  induction 1 as [|e evs He _ [IH1 IH2]]; [done|].
  destruct e as [| | | | |s r|]; try done. 
Qed.

Lemma updates_done_app evs1 evs2 :
  updates_done (evs1 ++ evs2) = (updates_done evs1 + updates_done evs2)%nat.
Proof. unfold updates_done. by rewrite List.filter_app, length_app. Qed.

Lemma commits_app evs1 evs2 :
  commits (evs1 ++ evs2) = (commits evs1 + commits evs2)%nat.
Proof. unfold commits. by rewrite List.filter_app, length_app. Qed.

Lemma translate_row_quiet lang txt (w : W) :
  Forall (λ e, quiet e = true) (translate_row parser translator lang txt w).2.
Proof.
  unfold translate_row. run. destruct w as [st t0]. cbn [fst snd].
  destruct (is_html parser (Some txt)).
  - destruct (tr_translate_html _ _ _ _) as [[e|tr] t]; cbn;
      by repeat constructor.
  - destruct (tr_translate_batch _ _ _ _) as [[e|[|tr l]] t]; cbn;
      by repeat constructor.
Qed.

Lemma translate_page_quiet lang texts (w : W) :
  Forall (λ e, quiet e = true) (translate_page parser translator lang texts w).2.
Proof.
  assert (H : ∀ w : W, Forall (λ e, quiet e = true)
                (translate_rows parser translator lang texts w).2).
  { induction texts as [|txt rest IH]; intros w0; [done|].
    cbn [translate_rows]. unfold mbind at 1, M_bind at 1, bind at 1.
    pose proof (translate_row_quiet lang txt w0) as H1.
    destruct (translate_row_returns parser translator lang txt w0)
      as (tr & t1 & ev1 & Hr & _).
    rewrite Hr in H1 |- *. cbn [snd] in H1.
    unfold mbind at 1, M_bind at 1, bind at 1.
    specialize (IH (w0.1, t1)).
    destruct (translate_rows_returns parser translator lang rest (w0.1, t1))
      as (trs & t2 & ev2 & Hrs & _).
    rewrite Hrs in IH |- *. cbn [fst snd mret M_ret ret] in IH |- *.
    rewrite app_nil_r. by apply Forall_app. }
  specialize (H w).
  destruct (translate_rows_returns parser translator lang texts w)
    as (trs & t & evs & Hrs & _).
  unfold translate_page, try_except. by rewrite Hrs in H |- *.
Qed.

Lemma write_back_ledger table col target_col pk rows : ∀ l (w : W),
  ∃ l' st evs,
    write_back execute table col target_col pk rows l w = (Ok l', (st, w.2), evs)
    ∧ total l' = total l
    ∧ ok l' = ok l + Z.of_nat (updates_done evs)
    ∧ fail l' = fail l + Z.of_nat (length rows - updates_done evs)
    ∧ (updates_done evs ≤ length rows)%nat
    ∧ commits evs = 0%nat.
Proof.
  induction rows as [|[[rid src] tr] rows IH]; intros l w.
  - exists l, w.1, []. destruct w.
    split_and!; try done; unfold updates_done; simpl; lia.
  - cbn [write_back]. unfold mbind, M_bind, bind.
    rewrite write_row_spec.
    destruct (nonblank tr).
    + cbn zeta. destruct (execute _ w.1) as [[e|r] st1].
      * destruct (IH (incr_fail l) (st1, w.2))
          as (l' & st & evs & H & Ht & Hok & Hfail & Hle & Hc).
        rewrite H. eexists _, _, _. split; [done|].
        unfold updates_done, commits in *.
        cbn [app List.filter length incr_fail ok fail total] in *.
        split_and!; try done; lia.
      * destruct (IH (incr_ok l) (st1, w.2))
          as (l' & st & evs & H & Ht & Hok & Hfail & Hle & Hc).
        rewrite H. eexists _, _, _. split; [done|].
        unfold updates_done, commits in *.
        cbn [app List.filter length incr_ok ok fail total] in *.
        split_and!; try done; lia.
    + destruct (IH (incr_fail l) w)
        as (l' & st & evs & H & Ht & Hok & Hfail & Hle & Hc).
      rewrite H. eexists _, _, _. split; [done|].
      unfold updates_done, commits in *.
      cbn [app List.filter length incr_fail ok fail total] in *.
      split_and!; try done; lia.
Qed.

Lemma zip3_length {A B C} (la : list A) : ∀ (lb : list B) (lc : list C),
  length lb = length la → length lc = length la →
  length (zip3 la lb lc) = length la.
Proof.
  induction la as [|a la IH]; intros [|b lb] [|c lc] Hb Hc; try done.
  simpl in *. f_equal. apply IH; lia.
Qed.

Lemma process_page_run table col target_col pk lang rows l (w : W) :
  ∃ l' st t evs,
    process_page execute commit parser translator
      table col target_col pk lang rows l w
    = (match (commit st).1 with inr _ => Ok l' | inl e => Raise e end,
       ((commit st).2, t), evs ++ [EvCommit])
    ∧ commits evs = 0%nat
    ∧ total l' = total l
    ∧ ok l' = ok l + Z.of_nat (updates_done evs)
    ∧ fail l' = fail l + Z.of_nat (length rows - updates_done evs)
    ∧ (updates_done evs ≤ length rows)%nat.
Proof.
  unfold process_page.
  pose proof (translate_page_quiet lang ((λ r, default "" r.2) <$> rows) w) as Hq.
  destruct (translate_page_returns parser translator lang
              ((λ r, default "" r.2) <$> rows) w)
    as (trs & t & ev1 & H1 & Hlen & _).
  rewrite H1 in Hq. cbn [snd] in Hq.
  destruct (quiet_updates_done ev1 Hq) as [Hu1 Hc1].
  destruct (write_back_ledger table col target_col pk
              (zip3 (fst <$> rows) ((λ r, default "" r.2) <$> rows) trs)
              l (w.1, t))
    as (l' & st & ev2 & H2 & Ht & Hok & Hfail & Hle & Hc2).
  rewrite zip3_length in Hfail, Hle by (by rewrite ?Hlen, !length_fmap).
  rewrite length_fmap in Hfail, Hle.
  unfold mbind at 1, M_bind at 1, bind at 1. rewrite H1.
  unfold mbind at 1, M_bind at 1, bind at 1. rewrite H2.
  run. cbn [fst snd].
  exists l', st, t, (ev1 ++ ev2).
  rewrite updates_done_app, commits_app, Hu1, Hc1, Hc2.
  split_and!; [|done..].
  destruct (commit st) as [[e|u] st']; cbn [fst snd];
    by rewrite ?app_nil_r, <- ?app_assoc.
Qed.

(** X13.  Whatever the translator and the statements do, the work on a page
    ends with one commit, and with no other: no failure of a row leaves the
    loop early.  Every row of the page is counted once, as written when its
    [UPDATE] executed and as failed otherwise. *)
Theorem process_page_reaches_commit table col target_col pk lang rows l (w : W) :
  ∃ l' st t evs,
    process_page execute commit parser translator
      table col target_col pk lang rows l w
    = (match (commit st).1 with inr _ => Ok l' | inl e => Raise e end,
       ((commit st).2, t), evs ++ [EvCommit])
    ∧ commits evs = 0%nat
    ∧ total l' = total l
    ∧ ok l' = ok l + Z.of_nat (updates_done evs)
    ∧ fail l' = fail l + Z.of_nat (length rows - updates_done evs)
    ∧ (updates_done evs ≤ length rows)%nat.
Proof. apply process_page_run. Qed.

Lemma pages_app evs1 evs2 : pages (evs1 ++ evs2) = pages evs1 ++ pages evs2.
Proof. unfold pages. by rewrite omap_app. Qed.

Lemma pages_select table pk col target_col limit offset rows evs :
  pages (EvSql (SelectPending table pk col target_col limit offset)
           (inr (RRows rows)) :: evs)
  = rows :: pages evs.
Proof. done. Qed.

Lemma commits_select s r evs : commits (EvSql s r :: evs) = commits evs.
Proof. done. Qed.

Lemma updates_done_select table pk col target_col limit offset r evs :
  updates_done (EvSql (SelectPending table pk col target_col limit offset) r
                  :: evs)
  = updates_done evs.
Proof. done. Qed.

Lemma page_loop_ledger table col target_col pk lang batch_size n_rows fuel :
  ∀ offset l (w : W),
    let run := page_loop execute commit parser translator fuel
                 table col target_col pk lang batch_size n_rows offset l w in
    commits run.2 = length (List.filter nonempty_page (pages run.2))
    ∧ ∀ l', run.1.1 = Ok l' →
        total l' = total l
        ∧ ok l' = ok l + Z.of_nat (updates_done run.2)
        ∧ ok l' + fail l'
          = ok l + fail l + Z.of_nat (length (concat (pages run.2)))
        ∧ fail l ≤ fail l'.
Proof.
  induction fuel as [|fuel IH]; intros offset l w run; subst run.
  { cbn [page_loop]. destruct (offset <? n_rows); cbn; (split; [done|]);
      intros l' [= <-]. split_and!; try done; unfold updates_done; simpl; lia. }
  rewrite page_loop_step. destruct (offset <? n_rows);
    [|cbn; split; [done|]; intros l' [= <-];
      split_and!; try done; unfold updates_done; simpl; lia].
  cbn zeta.
  destruct (execute _ w.1) as [[e|r] st]; [by cbn|].
  destruct r as [cols|n|rows|]; try by cbn.
  destruct rows as [|row rows].
  { cbn. split; [done|]. intros l' [= <-].
    split_and!; try done; unfold updates_done; simpl; lia. }
  destruct (process_page_run table col target_col pk lang (row :: rows) l (st, w.2))
    as (l1 & st1 & t1 & ev1 & Hrun & Hc1 & Ht1 & Hok1 & Hfail1 & Hle1).
  destruct (process_page_spec execute commit parser translator
              table col target_col pk lang (row :: rows) l (st, w.2))
    as (res & w' & ev1' & Hrun' & _ & _ & _ & _ & Hp1).
  rewrite Hrun in Hrun'. injection Hrun' as _ _ <-.
  rewrite Hrun. rewrite pages_app in Hp1.
  apply app_eq_nil in Hp1 as [Hp1 _].
  destruct (commit st1) as [[e|u] st1']; cbn [fst snd].
  - rewrite pages_select, commits_select, pages_app, commits_app, Hp1, Hc1.
    split; [done|]. done.
  - specialize (IH (offset + batch_size) l1 (st1', t1)).
    destruct (page_loop _ _ _ _ _ _ _ _ _ _ _ _ _ _ _) as [[r2 w2] ev2].
    cbn [fst snd] in IH |- *. destruct IH as [IHc IHl].
    rewrite pages_select, commits_select, updates_done_select.
    rewrite !pages_app, !commits_app, !updates_done_app, Hp1, Hc1.
    change (pages (EvPrint ?m :: ev2)) with (pages ev2).
    change (commits (EvPrint ?m :: ev2)) with (commits ev2).
    change (updates_done (EvPrint ?m :: ev2)) with (updates_done ev2).
    change (pages [EvCommit]) with (@nil (list (sqlval * option string))).
    change (commits [EvCommit]) with 1%nat.
    change (updates_done [EvCommit]) with 0%nat.
    cbn [app List.filter nonempty_page length concat].
    split; [lia|]. intros l' Hl'.
    destruct (IHl l' Hl') as (Ht & Hok & Hsum & Hmono).
    rewrite length_app. cbn [length] in *. split_and!; lia.
Qed.

(** X14.  The loop over the pages commits once per page that has rows.
    When it ends normally, [total] is as it was set, [ok] has grown by the
    number of rows whose [UPDATE] executed, [ok + fail] by the number of
    rows fetched, and [fail] has not gone down. *)
Theorem page_loop_accounts fuel table col target_col pk lang batch_size n_rows l
    (w : W) :
  let run := page_loop execute commit parser translator fuel
               table col target_col pk lang batch_size n_rows 0 l w in
  commits run.2 = length (List.filter nonempty_page (pages run.2))
  ∧ ∀ l', run.1.1 = Ok l' →
      total l' = total l
      ∧ ok l' = ok l + Z.of_nat (updates_done run.2)
      ∧ ok l' + fail l'
        = ok l + fail l + Z.of_nat (length (concat (pages run.2)))
      ∧ fail l ≤ fail l'.
Proof. apply page_loop_ledger. Qed.

End UpdaterMore.

(** ** The updater: the statements of a run *)

Lemma bind_events {S A B} (P : event → Prop) (m : M S A) (k : A → M S B) s :
  Forall P (m s).2 → (∀ a s1, Forall P (k a s1).2) →
  Forall P ((m ≫= k) s).2.
Proof.
  intros Hm Hk. unfold mbind, M_bind, bind.
  destruct (m s) as [[[a|e|] s1] ev1]; cbn [snd] in *; [|done..].
  specialize (Hk a s1). destruct (k a s1) as [[r s2] ev2].
  cbn [snd] in *. by apply Forall_app.
Qed.

Lemma try_except_events {S A} (P : event → Prop) (m : M S A) (h : exn → M S A) s :
  Forall P (m s).2 → (∀ e s1, Forall P (h e s1).2) →
  Forall P (try_except m h s).2.
Proof.
  intros Hm Hh. unfold try_except.
  destruct (m s) as [[[a|e|] s1] ev1]; cbn [snd] in *; [done| |done].
  specialize (Hh e s1). destruct (h e s1) as [[r s2] ev2].
  cbn [snd] in *. by apply Forall_app.
Qed.

Section RunScope.
Context {Store T : Type}.
Context (execute : stmt → Store → (exn + result) * Store).
Context (commit : Store → (exn + unit) * Store).
Context (conn_database : option string).
Context (parser : string → option (list node)).
Context (translator : translator T).
Context (selections : list (string * list string)) (lang : string).

Local Abbreviation W := (Store * T)%type.
Local Abbreviation P := (event_in_scope selections lang).

Lemma cursor_execute_scope s (w : W) :
  stmt_in_scope selections lang s →
  Forall P (cursor_execute execute s w).2.
Proof.
  intros Hs. unfold cursor_execute.
  destruct (execute s w.1) as [[e|r] st]; by repeat constructor.
Qed.

Lemma quiet_scope evs : Forall (λ e, quiet e = true) evs → Forall P evs.
Proof.
  intros H. eapply Forall_impl; [exact H|]. intros e He. by destruct e.
Qed.

Lemma write_back_scope table col pk rows : ∀ l (w : W),
  selected selections table col →
  Forall P (write_back execute table col (col +:+ "_" +:+ lang) pk rows l w).2.
Proof.
  intros l w Hsel. revert l w.
  induction rows as [|[[rid src] tr] rows IH]; intros l w; [done|].
  cbn [write_back]. apply bind_events; [|intros; apply IH].
  rewrite write_row_spec. destruct (nonblank tr) eqn:Hnb.
  - cbn zeta. destruct (execute _ w.1) as [[e|r] st]; by repeat constructor.
  - by repeat constructor.
Qed.

Lemma process_page_scope table col pk rows l (w : W) :
  selected selections table col →
  Forall P (process_page execute commit parser translator
              table col (col +:+ "_" +:+ lang) pk lang rows l w).2.
Proof.
  intros Hsel. unfold process_page.
  apply bind_events; [apply quiet_scope, translate_page_quiet|]. intros trs w1.
  apply bind_events; [by apply write_back_scope|]. intros l1 w2.
  apply bind_events; [|done].
  unfold conn_commit. destruct (commit w2.1) as [[e|u] st]; by repeat constructor.
Qed.

Lemma page_loop_scope table col pk batch_size total fuel :
  selected selections table col →
  ∀ offset l (w : W),
    Forall P (page_loop execute commit parser translator fuel
                table col (col +:+ "_" +:+ lang) pk lang
                batch_size total offset l w).2.
Proof.
  intros Hsel. induction fuel as [|fuel IH]; intros offset l w.
  { cbn [page_loop]. by destruct (offset <? total). }
  cbn [page_loop]. destruct (offset <? total); [|done].
  apply bind_events; [by apply cursor_execute_scope|]. intros r w1.
  apply bind_events; [by destruct r|]. intros rows w2.
  destruct rows as [|row rows]; [done|].
  apply bind_events; [by apply process_page_scope|]. intros l1 w3.
  apply bind_events; [by repeat constructor|]. intros _ w4. apply IH.
Qed.

Lemma add_target_column_scope table col schema (w : W) :
  selected selections table col →
  Forall P (add_target_column_if_needed execute commit conn_database
              table (col +:+ "_" +:+ lang) schema w).2.
Proof.
  intros Hsel. unfold add_target_column_if_needed.
  apply bind_events; [apply cursor_execute_scope; simpl; eauto|]. intros r w1.
  apply bind_events; [by destruct r|]. intros n w2.
  destruct (negb (0 <? n)); [|done].
  apply bind_events; [apply cursor_execute_scope; simpl; eauto|]. intros _ w3.
  apply bind_events; [|by repeat constructor].
  unfold conn_commit. destruct (commit w3.1) as [[e|u] st]; by repeat constructor.
Qed.

Lemma columns_loop_scope fuel table pk schema batch_size cols :
  (∀ col, col ∈ cols → selected selections table col) →
  ∀ entry (w : W),
    Forall P (columns_loop execute commit conn_database parser translator
                fuel table pk schema lang batch_size cols entry w).2.
Proof.
  induction cols as [|col cols IH]; intros Hsel entry w; [done|].
  assert (Hcol : selected selections table col) by (apply Hsel; left).
  cbn [columns_loop].
  apply bind_events; [by apply add_target_column_scope|]. intros _ w1.
  apply bind_events; [by apply cursor_execute_scope|]. intros r w2.
  apply bind_events; [by destruct r|]. intros total w3.
  apply bind_events; [by repeat constructor|]. intros _ w4.
  apply bind_events; [by apply page_loop_scope|]. intros l w5.
  apply IH. intros c Hc. apply Hsel. by right.
Qed.

Lemma tables_loop_scope fuel schema batch_size sels :
  sels ⊆ selections →
  ∀ summary (w : W),
    Forall P (tables_loop execute commit conn_database parser translator
                fuel schema lang batch_size sels summary w).2.
Proof.
  induction sels as [|[table cols] sels IH]; intros Hsub summary w; [done|].
  assert (Hin : (table, cols) ∈ selections) by (apply Hsub; left).
  assert (Hrest : sels ⊆ selections) by (intros x Hx; apply Hsub; by right).
  cbn [tables_loop]. destruct cols as [|c cols]; [by apply IH|].
  apply bind_events.
  { rewrite detect_primary_key_spec. cbn zeta.
    destruct (execute _ w.1) as [[e|r] st].
    - repeat constructor. simpl. eauto.
    - destruct r; repeat constructor; simpl; eauto. }
  intros pk w1. destruct (negb (Py.truthy_opt pk)).
  - apply bind_events; [by repeat constructor|]. intros _ w2. by apply IH.
  - apply bind_events; [|intros; by apply IH].
    apply columns_loop_scope. intros col Hcol. by exists (c :: cols).
Qed.

(** X15.  Every statement of a run stays within the selections: it names
    a selected table, and a selected column with its destination
    [<col>_<lang>]; and every [UPDATE] writes one value, not blank, to both
    the destination and the source column. *)
Theorem translate_and_update_scope fuel schema batch_size (w : W) :
  Forall (stmt_in_scope selections lang)
    (statements (translate_and_update execute commit conn_database parser
                   translator fuel selections schema lang batch_size w).2).
Proof.
  pose proof (tables_loop_scope fuel schema batch_size selections
                ltac:(done) ∅ w) as H.
  unfold translate_and_update.
  induction H as [|e evs He _ IH]; [done|].
  destruct e; try exact IH. unfold statements. cbn. by constructor.
Qed.

End RunScope.

(** ** The updater: what a run returns *)

Lemma bind_ok {S A B} (m : M S A) (k : A → M S B) s b s' evs :
  (m ≫= k) s = (Ok b, s', evs) →
  ∃ a s1 ev1 ev2,
    m s = (Ok a, s1, ev1) ∧ k a s1 = (Ok b, s', ev2) ∧ evs = ev1 ++ ev2.
Proof.
  unfold mbind, M_bind, bind.
  destruct (m s) as [[[a|e|] s1] ev1]; [|done..].
  destruct (k a s1) as [[r s2] ev2] eqn:Hk. intros [= -> -> <-].
  eauto 10.
Qed.

Section RunMore.
Context {Store T : Type}.
Context (execute : stmt → Store → (exn + result) * Store).
Context (commit : Store → (exn + unit) * Store).
Context (conn_database : option string).
Context (parser : string → option (list node)).
Context (translator : translator T).

Local Abbreviation W := (Store * T)%type.

(** X16.  An exception while the destination column is provided is not
    caught: the run ends with it at once, returns no summary, and makes no
    statement for the columns and tables that follow. *)
Theorem provisioning_failure_aborts fuel schema lang batch_size
    table col cols rest (w w1 w2 : W) pk ev1 ev2 e :
  detect_primary_key execute schema table w = (Ok (Some pk), w1, ev1) →
  Py.truthy pk = true →
  add_target_column_if_needed execute commit conn_database
    table (col +:+ "_" +:+ lang) schema w1 = (Raise e, w2, ev2) →
  translate_and_update execute commit conn_database parser translator
    fuel ((table, col :: cols) :: rest) schema lang batch_size w
  = (Raise e, w2, ev1 ++ ev2).
Proof.
  intros Hpk Htruthy Hadd. unfold translate_and_update. cbn [tables_loop].
  unfold mbind at 1, M_bind at 1, bind at 1. rewrite Hpk.
  cbn [Py.truthy_opt]. rewrite Htruthy. cbn [negb default].
  unfold mbind at 1, M_bind at 1, bind at 1. cbn [columns_loop].
  unfold mbind at 1, M_bind at 1, bind at 1. by rewrite Hadd.
Qed.

Lemma columns_loop_dom fuel table pk schema lang batch_size cols :
  ∀ entry (w : W) entry' w' evs,
    columns_loop execute commit conn_database parser translator
      fuel table pk schema lang batch_size cols entry w = (Ok entry', w', evs) →
    dom entry' = dom entry ∪ list_to_set cols
    ∧ (∀ col l, entry' !! col = Some l →
         entry !! col = Some l ∨ (0 ≤ ok l ∧ 0 ≤ fail l)).
Proof.
  induction cols as [|col cols IH]; intros entry w entry' w' evs Hrun.
  { injection Hrun as <- _ _. split; [|eauto].
    by rewrite list_to_set_nil, (right_id_L ∅ (∪)). }
  cbn [columns_loop] in Hrun.
  apply bind_ok in Hrun as (u & w1 & ev1 & ev1' & _ & Hrun & _).
  apply bind_ok in Hrun as (r & w2 & ev2 & ev2' & _ & Hrun & _).
  apply bind_ok in Hrun as (cnt & w3 & ev3 & ev3' & _ & Hrun & _).
  apply bind_ok in Hrun as (u' & w4 & ev4 & ev4' & _ & Hrun & _).
  apply bind_ok in Hrun as (l & w5 & ev5 & ev5' & Hpage & Hrun & _).
  apply IH in Hrun as [Hdom Hled]. split.
  - rewrite Hdom, dom_insert_L, list_to_set_cons.
    rewrite (comm_L (∪) {[col]} (dom entry)). by rewrite (assoc_L (∪)).
  - intros c l' Hl'. destruct (Hled c l' Hl') as [Hold|Hnew]; [|by right].
    destruct (decide (col = c)) as [->|Hne].
    + rewrite lookup_insert_eq in Hold. injection Hold as <-. right.
      pose proof (page_loop_ledger execute commit parser translator
                    table c (c +:+ "_" +:+ lang) pk lang batch_size cnt fuel
                    0 {| total := cnt; ok := 0; fail := 0 |} w4)
        as [_ Hl].
      rewrite Hpage in Hl. cbn [fst snd] in Hl.
      destruct (Hl l eq_refl) as (_ & Hok & _ & Hmono). cbn [ok fail] in *.
      lia.
    + rewrite lookup_insert_ne in Hold by done. by left.
Qed.

Lemma tables_loop_entries fuel schema lang batch_size sels :
  ∀ summary (w : W) summary' w' evs,
    tables_loop execute commit conn_database parser translator
      fuel schema lang batch_size sels summary w = (Ok summary', w', evs) →
    ∀ table entry, summary' !! table = Some entry →
      summary !! table = Some entry
      ∨ ∃ cols, (table, cols) ∈ sels ∧ cols ≠ []
          ∧ dom entry = list_to_set cols
          ∧ ∀ col l, entry !! col = Some l → 0 ≤ ok l ∧ 0 ≤ fail l.
Proof.
  induction sels as [|[t cols] sels IH];
    intros summary w summary' w' evs Hrun table entry Hentry.
  { injection Hrun as <- _ _. by left. }
  cbn [tables_loop] in Hrun. destruct cols as [|c cols].
  { destruct (IH _ _ _ _ _ Hrun _ _ Hentry) as [?|(cs & Hin & Hrest)];
      [by left|right]. exists cs. split; [by right|done]. }
  apply bind_ok in Hrun as (pk & w1 & ev1 & ev1' & _ & Hrun & _).
  destruct (negb (Py.truthy_opt pk)).
  - apply bind_ok in Hrun as (u & w2 & ev2 & ev2' & _ & Hrun & _).
    destruct (IH _ _ _ _ _ Hrun _ _ Hentry) as [?|(cs & Hin & Hrest)];
      [by left|right]. exists cs. split; [by right|done].
  - apply bind_ok in Hrun as (e & w2 & ev2 & ev2' & Hcols & Hrun & _).
    destruct (IH _ _ _ _ _ Hrun _ _ Hentry) as [Hold|(cs & Hin & Hrest)].
    + destruct (decide (t = table)) as [->|Hne].
      * rewrite lookup_insert_eq in Hold. injection Hold as <-. right.
        exists (c :: cols). apply columns_loop_dom in Hcols as [Hdom Hled].
        split_and!; [left|done| |].
        -- by rewrite Hdom, dom_empty_L, (left_id_L ∅ (∪)).
        -- intros col l Hl. by destruct (Hled col l Hl).
      * rewrite lookup_insert_ne in Hold by done. by left.
    + right. exists cs. split; [by right|done].
Qed.

(** X17.  The summary of a run that ends normally has entries only for
    selected tables with at least one selected column, each entry has a
    ledger for every selected column of its table and for no other, and no
    ledger has a negative count. *)
Theorem summary_entries fuel selections schema lang batch_size (w : W)
    summary w' evs :
  translate_and_update execute commit conn_database parser translator
    fuel selections schema lang batch_size w = (Ok summary, w', evs) →
  ∀ table entry, summary !! table = Some entry →
    ∃ cols, (table, cols) ∈ selections ∧ cols ≠ []
      ∧ dom entry = list_to_set cols
      ∧ ∀ col l, entry !! col = Some l → 0 ≤ ok l ∧ 0 ≤ fail l.
Proof.
  intros Hrun table entry Hentry.
  by destruct (tables_loop_entries _ _ _ _ _ _ _ _ _ _ Hrun _ _ Hentry).
Qed.

End RunMore.

(** ** The updater on the client, when the service gives no data *)

Section ServiceDown.
Context {Store Net : Type}.
Context (execute : stmt → Store → (exn + result) * Store).
Context (post : request → Net → reply * Net).
Context (parser : string → option (list node)) (to_str : node → string).
Context (self : TranslatorAPI_MIC).

Local Abbreviation W := (Store * (Net * list event))%type.
Local Abbreviation client := (client_translator post parser to_str self).

(** X18.  When no reply carries data, a row of plain text gets the empty
    translation without any exception, and the write-back skips it: the
    row is counted as failed and no statement is made, so it stays
    pending. *)
Theorem plain_row_when_service_down lang txt (w : W) :
  is_html parser (Some txt) = false →
  (∀ req n, no_data (post req n).1 = true) →
  ∃ t,
    translate_row parser client lang txt w
    = (Ok "", (w.1, t), [EvTranslateBatch [txt]])
    ∧ ∀ table col target_col pk rid l,
        write_row execute table col target_col pk (rid, txt, "") l (w.1, t)
        = (Ok (incr_fail l), (w.1, t), [EvPrint (MsgSkipRow rid)]).
Proof.
  intros Hplain Hnd.
  destruct (translate_batch_no_data post self [txt] (Some lang)
              default_retry default_timeout w.2.1 ltac:(done) Hnd)
    as (n' & evs & Hrun & _).
  exists (n', w.2.2 ++ evs). split; [|done].
  unfold translate_row. rewrite Hplain.
  unfold try_except, mbind, M_bind, bind, emit, call.
  cbn [client_translator tr_translate_batch fst snd]. rewrite Hrun.
  destruct w as [st [n log]]. done.
Qed.

(** X19.  When no reply carries data, a row of HTML with text gets as its
    translation the document with every text leaf emptied; when that
    markup is not blank, the write-back makes an [UPDATE] that puts it in
    the destination column and in the source column as well. *)
Theorem html_row_when_service_down lang html contents (w : W) :
  is_html parser (Some html) = true →
  parser html = Some contents →
  extract_text_nodes_soup (BeautifulSoup contents) ≠ [] →
  (∀ req n, no_data (post req n).1 = true) →
  let emptied := to_str (blank_leaves (BeautifulSoup contents)) in
  ∃ t,
    translate_row parser client lang html w
    = (Ok emptied, (w.1, t), [EvTranslateHtml html])
    ∧ (nonblank emptied = true →
       ∀ table col target_col pk rid l,
         statements
           (write_row execute table col target_col pk (rid, html, emptied) l
              (w.1, t)).2
         = [UpdateRow table target_col col pk emptied emptied rid]).
Proof.
  intros Hhtml Hparse Hsome Hnd emptied.
  destruct (translate_html_no_data post parser to_str self html
              (Some lang) contents w.2.1 Hparse Hsome Hnd)
    as (n' & evs & Hrun & _).
  exists (n', w.2.2 ++ evs). split.
  - unfold translate_row. rewrite Hhtml.
    unfold try_except, mbind, M_bind, bind, emit, call.
    cbn [client_translator tr_translate_html fst snd]. rewrite Hrun.
    destruct w as [st [n log]]. done.
  - intros Hnb table col target_col pk rid l.
    rewrite write_row_spec, Hnb. cbn zeta.
    by destruct (execute _ _) as [[e|r] st].
Qed.

End ServiceDown.

(** ** The choice of the columns *)

Section SelectFacts.
Context (py_int : string → option Z) (isdigit : string → bool).

Lemma pick_columns_within cols idxs :
  Forall (λ c, c ∈ column_names cols) (pick_columns cols idxs).
Proof.
  unfold pick_columns. induction idxs as [|i idxs IH]; [done|].
  cbn [omap list_omap].
  destruct ((1 <=? i) && (i <=? Z.of_nat (length cols))); [|done].
  destruct (cols !! Z.to_nat (i - 1)) as [c|] eqn:Hc; [|done].
  cbn. constructor; [|done]. unfold column_names.
  apply list_elem_of_fmap. exists c. split; [done|].
  by eapply list_elem_of_lookup_2.
Qed.

Lemma select_columns_spec cols answer :
  (∀ sel, select_columns py_int isdigit cols answer = inr sel →
     Forall (λ c, c ∈ column_names cols) sel)
  ∧ (Py.strip answer = "" →
     select_columns py_int isdigit cols answer = inr [])
  ∧ (lower (Py.strip answer) = "all" →
     select_columns py_int isdigit cols answer = inr (column_names cols)).
Proof.
  unfold select_columns. split_and!.
  - intros sel. destruct (negb (Py.truthy (Py.strip answer))).
    { by intros [= <-]. }
    case_bool_decide.
    { intros [= <-]. apply Forall_forall. by intros c Hc. }
    destruct (tokens_indexes _ _ _ _) as [e|idxs]; [done|].
    intros [= <-]. apply pick_columns_within.
  - by intros ->.
  - intros Hall. destruct (Py.strip answer) as [|c u]; [done|].
    cbn [Py.truthy negb]. by rewrite bool_decide_eq_true_2.
Qed.

Lemma interactive_select_columns_spec tables_cols : ∀ answers selections remaining out,
  interactive_select_columns py_int isdigit tables_cols answers
    = (inr selections, remaining, out) →
  selections.*1 = tables_cols.*1
  ∧ Forall2 (λ s tc, Forall (λ c, c ∈ column_names tc.2) s.2)
      selections tables_cols
  ∧ remaining = drop (length tables_cols) answers
  ∧ (length tables_cols ≤ length answers)%nat.
Proof.
  induction tables_cols as [|[t cols] rest IH];
    intros answers selections remaining out Hrun.
  { injection Hrun as <- <- _. split_and!; [done|done|done|simpl; lia]. }
  cbn [interactive_select_columns] in Hrun.
  destruct answers as [|answer answers]; [done|].
  destruct (select_columns py_int isdigit cols answer) as [e|sel] eqn:Hsel;
    [done|].
  destruct (interactive_select_columns py_int isdigit rest answers)
    as [[[e|sels] rem] o] eqn:Hrest; [done|].
  injection Hrun as <- <- _.
  destruct (IH _ _ _ _ Hrest) as (Hk & Hall & Hrem & Hlen).
  split_and!.
  - cbn. by f_equal.
  - constructor; [|done]. cbn.
    by apply (proj1 (select_columns_spec cols answer)).
  - done.
  - simpl. lia.
Qed.

(** X20.  When the dialogue ends normally, it has read one answer per
    table and returns one entry per table, in the order of the tables; and
    whatever numbers were typed, every column it selects is a column of
    its table. *)
Theorem interactive_selections_exist tables_cols answers selections remaining out :
  interactive_select_columns py_int isdigit tables_cols answers
    = (inr selections, remaining, out) →
  selections.*1 = tables_cols.*1
  ∧ remaining = drop (length tables_cols) answers
  ∧ ∀ table col, selected selections table col →
      ∃ cols, (table, cols) ∈ tables_cols ∧ col ∈ column_names cols.
Proof.
  intros Hrun.
  destruct (interactive_select_columns_spec _ _ _ _ _ Hrun)
    as (Hk & Hall & Hrem & _).
  split_and!; [done|done|].
  intros table col (sel & Hin & Hcol).
  apply list_elem_of_lookup in Hin as [i Hi].
  destruct (Forall2_lookup_l _ _ _ _ _ Hall Hi) as ([t cols] & Htc & Hsel).
  assert (t = table) as ->.
  { assert (H1 : selections.*1 !! i = Some table)
      by (by rewrite list_lookup_fmap, Hi).
    rewrite Hk, list_lookup_fmap, Htc in H1. by injection H1. }
  exists cols. split; [by eapply list_elem_of_lookup_2|].
  cbn in Hsel. rewrite Forall_forall in Hsel. by apply Hsel.
Qed.

Lemma tokens_indexes_readable toks :
  Forall (λ tok, unreadable_number py_int isdigit tok = false) toks →
  ∀ idxs, ∃ out, tokens_indexes py_int isdigit toks idxs = inr out.
Proof.
  induction 1 as [|tok toks Htok _ IH]; intros idxs; [by eexists|].
  cbn [tokens_indexes].
  assert (Hone : ∃ more, token_indexes py_int isdigit tok = inr more).
  { unfold token_indexes. unfold unreadable_number in Htok. cbn zeta in Htok.
    destruct (Py.contains "-" (Py.strip tok)).
    - destruct (split_once "-" (Py.strip tok)) as [[a b]|]; [|by eexists].
      destruct (py_int a), (py_int b); by eexists.
    - destruct (isdigit (Py.strip tok)); [|by eexists].
      destruct (py_int (Py.strip tok)); [by eexists|done]. }
  destruct Hone as [more ->]. apply IH.
Qed.

Lemma select_columns_readable cols answer :
  Forall (λ tok, unreadable_number py_int isdigit tok = false)
    (answer_tokens answer) →
  ∃ sel, select_columns py_int isdigit cols answer = inr sel.
Proof.
  intros Hall. unfold select_columns.
  destruct (negb (Py.truthy (Py.strip answer))); [by eexists|].
  case_bool_decide; [by eexists|].
  destruct (tokens_indexes_readable _ Hall []) as [idxs Hidx].
  unfold answer_tokens in Hidx. rewrite Hidx. by eexists.
Qed.

(** X21.  The dialogue ends normally as soon as there is an answer for
    every table and no answer read holds a token that [isdigit] takes for
    a number and [int] does not read: a token that is not understood, a
    malformed range included, selects nothing and raises nothing. *)
Theorem interactive_select_columns_completes tables_cols answers :
  (length tables_cols ≤ length answers)%nat →
  Forall (λ answer,
            Forall (λ tok, unreadable_number py_int isdigit tok = false)
              (answer_tokens answer))
    (take (length tables_cols) answers) →
  ∃ selections out,
    interactive_select_columns py_int isdigit tables_cols answers
    = (inr selections, drop (length tables_cols) answers, out).
Proof.
  revert answers.
  induction tables_cols as [|[t cols] rest IH]; intros answers Hlen Hall.
  { by eexists _, _. }
  destruct answers as [|answer answers]; [simpl in Hlen; lia|].
  cbn [length take] in Hall. apply Forall_cons in Hall as [Hans Hall].
  cbn [interactive_select_columns].
  destruct (select_columns_readable cols answer Hans) as [sel ->].
  destruct (IH answers ltac:(simpl in Hlen; lia) Hall) as (sels & out & ->).
  by eexists _, _.
Qed.

(** X22.  A token that [isdigit] accepts and [int] does not read, as
    CPython has them, makes the choice raise [ValueError]. *)
Theorem select_columns_digit_not_int cols tok :
  isdigit tok = true → py_int tok = None →
  Py.strip tok = tok → tok ≠ "" →
  Py.contains "-" tok = false → Py.contains "," tok = false →
  lower tok ≠ "all" →
  select_columns py_int isdigit cols tok = inl (Exception "ValueError").
Proof.
  intros Hd Hi Hstrip Hne Hdash Hcomma Hall. unfold select_columns.
  rewrite Hstrip. destruct tok as [|c tok]; [done|]. cbn [Py.truthy negb].
  rewrite bool_decide_eq_false_2 by done.
  assert (Hsplit : ∀ s, Py.contains "," s = false → split_char "," s = [s]).
  { induction s as [|c' s IHs]; [done|]. cbn [Py.contains split_char].
    destruct (decide ("," = c'))%char as [<-|Hc]; [done|].
    intros Hs. rewrite decide_False by done. by rewrite IHs. }
  rewrite Hsplit by done. cbn [tokens_indexes]. unfold token_indexes.
  by rewrite Hstrip, Hdash, Hd, Hi.
Qed.

End SelectFacts.

(** ** The further properties at work *)

Lemma rebuild_full_list_witness :
  (recurse_replace ["Hallo"; "Welt"; "unused"]
     (BeautifulSoup
        [Tag "p" [] [NavigableString PlainString "Hello ";
                     Tag "b" [] [NavigableString PlainString "world"]]])
     0).2 = 2%nat.
Proof.
  assert (Hlen : (length (extract_text_nodes_soup
    (BeautifulSoup
       [Tag "p" [] [NavigableString PlainString "Hello ";
                    Tag "b" [] [NavigableString PlainString "world"]]]))
    ≤ length ["Hallo"; "Welt"; "unused"])%nat) by (vm_compute; lia).
  destruct (rebuild_full_list _ _ Hlen) as (_ & _ & _ & H).
  exact H.
Defined.

Lemma extract_after_rebuild_witness :
  ∃ out nodes,
    rebuild_html_from_nodes parser_stub render_stub "<p>Hello</p>"
      ["hi"; "unused"] = Some out
    ∧ extract_text_nodes parser_stub out = Some nodes
    ∧ text <$> nodes = ["hi"].
Proof.
  apply (extract_after_rebuild parser_stub render_stub "<p>Hello</p>"
           [Tag "p" [] [NavigableString PlainString "Hello"]]
           [Tag "p" [] [NavigableString PlainString "hi"]]
           ["hi"; "unused"]).
  - reflexivity.
  - reflexivity.
  - reflexivity.
  - repeat constructor.
  - vm_compute. lia.
Defined.

Lemma quote_ident_reads_back_witness :
  read_quoted (quote_ident "a`b" +:+ " ADD COLUMN") = Some ("a`b", " ADD COLUMN").
Proof.
  apply (quote_ident_reads_back "a`b" " ADD COLUMN"). reflexivity.
Defined.

Lemma translate_batch_backoff_witness :
  sleeps (translate_batch unit unavailable_post translator_example
            ["Hello"] None default_retry default_timeout ()).2
  = [2; 4; 8].
Proof.
  apply (proj2 (translate_batch_backoff unavailable_post translator_example
                  ["Hello"] None default_retry default_timeout ())).
  - vm_compute. repeat constructor.
  - reflexivity.
Defined.

Lemma translate_batch_posts_witness :
  translate_batch unit unavailable_post translator_example
    ["Hello"] None 0 default_timeout ()
  = (Ok [""], (), []).
Proof.
  apply (proj2 (proj2 (translate_batch_posts unavailable_post
                         translator_example ["Hello"] None 0
                         default_timeout ()))).
  lia.
Defined.

Lemma translate_batch_undecodable_witness :
  ∃ evs,
    translate_batch unit garbled_post translator_example
      ["Hello"; "World"] None default_retry default_timeout ()
    = (Ok [""; ""], (), evs)
    ∧ length (replies evs) = 3%nat.
Proof.
  destruct (translate_batch_undecodable garbled_post translator_example
              ["Hello"; "World"] None default_retry default_timeout ())
    as (n' & evs & H & Hlen); [done|done|].
  destruct n'. by exists evs.
Defined.

Lemma translator_init_witness :
  TranslatorAPI_MIC_init "" "westeurope" "de" "https://host/"
  = inl (Exception "ValueError")
  ∧ ∀ self,
      TranslatorAPI_MIC_init "k" "westeurope" "de" "https://host//" = inr self →
      last_char (endpoint self) ≠ Some "/"%char.
Proof.
  split.
  - apply (proj1 (translator_init "" "westeurope" "de" "https://host/")).
    by left.
  - intros self H.
    by destruct (proj2 (translator_init "k" "westeurope" "de" "https://host//")
                   self H) as (_ & _ & _ & Hlast & _).
Defined.

Lemma translate_html_service_down_witness :
  ∃ evs,
    translate_html unit unavailable_post parser_stub render_stub
      translator_example "<p>Hello</p>" (Some "de") ()
    = (Ok "<p></p>", (), evs)
    ∧ length (replies evs) = 3%nat.
Proof.
  destruct (translate_html_service_down unavailable_post parser_stub
              render_stub translator_example "<p>Hello</p>" (Some "de")
              [Tag "p" [] [NavigableString PlainString "Hello"]] ())
    as (n' & evs & H & Hlen); [reflexivity|done|done|].
  destruct n'. by exists evs.
Defined.

Lemma detect_primary_key_result_witness :
  (detect_primary_key (T := unit) mem_execute (Some "cms") "doc"
     (doc_db, ())).1.1
  = Ok (Some "id").
Proof.
  destruct (detect_primary_key_result (T := unit) mem_execute (Some "cms")
              "doc" (doc_db, ())
              [("id", "int", "PRI"); ("title", "text", "")] doc_db eq_refl)
    as (pk & Hrun & _ & _ & Hfirst & _).
  rewrite Hrun. cbn [fst]. f_equal.
  apply (Hfirst 0%nat ("id", "int", "PRI")); [done|done|].
  intros j y Hj. lia.
Defined.

Lemma page_loop_accounts_witness :
  let run := page_loop mem_execute mem_commit parser_stub stub_translator 5
               "doc" "title" "title_de" "id" "de" 10 2 0 ledger0
               (doc_db_ready, ()) in
  commits run.2 = 1%nat
  ∧ ∃ l', run.1.1 = Ok l' ∧ ok l' = 2 ∧ ok l' + fail l' = 2.
Proof.
  intros run.
  destruct (page_loop_accounts mem_execute mem_commit parser_stub
              stub_translator 5 "doc" "title" "title_de" "id" "de" 10 2
              ledger0 (doc_db_ready, ())) as [Hc Hl].
  fold run in Hc, Hl. split; [by rewrite Hc|].
  assert (H : run.1.1 = Ok {| total := 2; ok := 2; fail := 0 |})
    by (by vm_compute).
  eexists. split; [exact H|].
  destruct (Hl _ H) as (_ & Hok & Hsum & _).
  split; [by rewrite Hok|by rewrite Hsum].
Defined.

Lemma provisioning_failure_aborts_witness :
  (translate_and_update readonly_execute mem_commit (Some "cms") parser_stub
     stub_translator 10 [("doc", ["title"])] (Some "cms") "de" 10
     (doc_db, ())).1.1
  = Raise (Exception "1142 ALTER command denied").
Proof.
  rewrite (provisioning_failure_aborts readonly_execute mem_commit
             (Some "cms") parser_stub stub_translator 10 (Some "cms") "de" 10
             "doc" "title" [] [] (doc_db, ()) (doc_db, ()) (doc_db, ()) "id"
             [EvSql (SelectColumns (Some "cms") "doc")
                (inr (RColumns [("id", "int", "PRI"); ("title", "text", "")]))]
             [EvSql (CountColumn (Some "cms") "doc" "title_de") (inr (RCount 0));
              EvSql (AlterAddColumn "doc" "title_de")
                (inl (Exception "1142 ALTER command denied"))]
             (Exception "1142 ALTER command denied"));
    reflexivity.
Defined.

Lemma summary_entries_witness :
  ∃ cols, ("doc", cols) ∈ [("doc", ["title"])] ∧ cols ≠ []
    ∧ dom ({[ "title" := {| total := 2; ok := 2; fail := 0 |} ]}
             : gmap string ledger)
      = list_to_set cols.
Proof.
  pose (run := translate_and_update mem_execute mem_commit (Some "cms")
                 parser_stub stub_translator 10 [("doc", ["title"])]
                 (Some "cms") "de" 10 (doc_db, ())).
  destruct (summary_entries mem_execute mem_commit (Some "cms") parser_stub
              stub_translator 10 [("doc", ["title"])] (Some "cms") "de" 10
              (doc_db, ())
              {[ "doc" := {[ "title" := {| total := 2; ok := 2; fail := 0 |} ]} ]}
              run.1.2 run.2 ltac:(by vm_compute) "doc"
              {[ "title" := {| total := 2; ok := 2; fail := 0 |} ]}
              ltac:(by vm_compute))
    as (cols & Hin & Hne & Hdom & _).
  by exists cols.
Defined.

Lemma plain_row_when_service_down_witness :
  ∃ t,
    translate_row parser_stub
      (client_translator unavailable_post parser_stub render_stub
         translator_example)
      "de" "World" (doc_db_ready, ((), []))
    = (Ok "", (doc_db_ready, t), [EvTranslateBatch ["World"]]).
Proof.
  destruct (plain_row_when_service_down mem_execute unavailable_post
              parser_stub render_stub translator_example "de" "World"
              (doc_db_ready, ((), [])))
    as (t & H & _); [reflexivity|done|].
  by exists t.
Defined.

Lemma html_row_when_service_down_witness :
  ∃ t,
    translate_row parser_stub
      (client_translator unavailable_post parser_stub render_stub
         translator_example)
      "de" "<p>Hello</p>" (doc_db_ready, ((), []))
    = (Ok "<p></p>", (doc_db_ready, t), [EvTranslateHtml "<p>Hello</p>"])
    ∧ statements
        (write_row mem_execute "doc" "title" "title_de" "id"
           (SqlInt 1, "<p>Hello</p>", "<p></p>") ledger0 (doc_db_ready, t)).2
      = [UpdateRow "doc" "title_de" "title" "id" "<p></p>" "<p></p>" (SqlInt 1)].
Proof.
  destruct (html_row_when_service_down mem_execute unavailable_post
              parser_stub render_stub translator_example "de" "<p>Hello</p>"
              [Tag "p" [] [NavigableString PlainString "Hello"]]
              (doc_db_ready, ((), [])))
    as (t & H & Hwrite); [reflexivity|reflexivity|done|done|].
  exists t. split; [exact H|]. apply Hwrite. reflexivity.
Defined.

Lemma interactive_selections_exist_witness :
  ∃ cols, ("doc", cols) ∈ doc_columns ∧ "body" ∈ column_names cols.
Proof.
  apply (proj2 (proj2 (interactive_selections_exist int_stub isdigit_stub
    doc_columns ["2-3, 7"; " ALL "; "1"]
    [("doc", ["title"; "body"]); ("tag", ["name"])] ["1"]
    (table_lines "doc" [("id", "int", "PRI"); ("title", "text", "");
                        ("body", "text", "")]
     ++ table_lines "tag" [("name", "varchar", "")]) eq_refl)) "doc" "body").
  exists ["title"; "body"]. split; [left|right; left].
Defined.

Lemma translate_html_first_reply_witness :
  (translate_html (list reply) scripted_post parser_stub render_stub
     translator_example "<p>Hello <b>world</b></p>" (Some "de")
     [Response 200 ""
        (Some [ {| translations := Some [ {| tr_text := Some "Hallo " |} ] |};
                {| translations := Some [ {| tr_text := Some "Welt" |} ] |} ])]).1.1
  = Ok "<p>Hallo <b>Welt</b></p>".
Proof.
  rewrite (translate_html_first_reply scripted_post parser_stub render_stub
             translator_example "<p>Hello <b>world</b></p>" (Some "de")
             [Tag "p" [] [NavigableString PlainString "Hello ";
                          Tag "b" [] [NavigableString PlainString "world"]]]
             [Response 200 ""
                (Some [ {| translations := Some [ {| tr_text := Some "Hallo " |} ] |};
                        {| translations := Some [ {| tr_text := Some "Welt" |} ] |} ])]
             [ {| translations := Some [ {| tr_text := Some "Hallo " |} ] |};
               {| translations := Some [ {| tr_text := Some "Welt" |} ] |} ]
             eq_refl ltac:(done) eq_refl).
  reflexivity.
Defined.

Lemma interactive_select_columns_completes_witness :
  ∃ selections out,
    interactive_select_columns int_stub isdigit_latin1 doc_columns
      ["x, 1-, 2"; "-"; "left"]
    = (inr selections, ["left"], out).
Proof.
  apply (interactive_select_columns_completes int_stub isdigit_latin1
           doc_columns ["x, 1-, 2"; "-"; "left"]).
  - simpl. lia.
  - vm_compute. repeat constructor.
Defined.

Lemma select_columns_digit_not_int_witness :
  select_columns int_stub isdigit_latin1
    [("id", "int", "PRI"); ("title", "text", "")] superscript_two
  = inl (Exception "ValueError").
Proof.
  apply (select_columns_digit_not_int int_stub isdigit_latin1
           [("id", "int", "PRI"); ("title", "text", "")] superscript_two);
    by vm_compute.
Defined.

(** ** A scenario with pages smaller than the table *)

(** One run with pages of one row on a database where a written row is no
    longer pending: the second page, fetched at offset 1, is empty, so the
    run ends with one row written and the other still pending, counted
    neither as written nor as failed. *)
Example scenario_small_pages :
  let run := translate_and_update mem_execute mem_commit (Some "cms")
               parser_stub stub_translator 10 [("doc", ["title"])]
               (Some "cms") "de" 1 (doc_db, ()) in
  run.1.1 = Ok {[ "doc" := {[ "title" := {| total := 2; ok := 1; fail := 0 |} ]} ]}
  ∧ fetches run.2 = [(1, 0); (1, 1)]
  ∧ pages run.2 = [[(SqlInt 1, Some "<p>Hello</p>")]; []]
  ∧ mt_rows <$> db_tables run.1.2.1 !! "doc"
    = Some [ {[ "id" := SqlInt 1; "title" := SqlStr "<p>Hallo</p>";
                "title_de" := SqlStr "<p>Hallo</p>" ]};
             {[ "id" := SqlInt 2; "title" := SqlStr "World" ]} ].
Proof. split_and!; by vm_compute. Qed.
